(** * Bitmap decode / encode pipeline of jimp ([src/utils/image-bitmap.js])

    A shallow embedding of [getMIMEFromBuffer], [getBitmapFromGIF],
    [exifRotate], [parseBitmap], [compositeBitmapOverBackground] and
    [getBuffer], together with the constants of [src/constants.js] that
    they use.

    JavaScript values are an inductive type; the image entity ([this]) is a
    record; the code runs in a small monad that threads the image and the
    log of completion-callback invocations and in which a [throw] keeps the
    mutations made so far.  The codec libraries (file-type, pngjs, jpeg-js,
    bmp-js, utif, exif-parser, omggif) and the methods of the image entity
    that live in other files are the fields of the class [Environment]. *)

From Stdlib Require Import ZArith List String Ascii Bool Lia.
From Stdlib Require Import Strings.Byte DecimalString.
Import ListNotations.
Local Open Scope string_scope.
Local Open Scope Z_scope.

(* ===================================================================== *)
(** ** JavaScript values *)
(* ===================================================================== *)

(** The values that reach this file.  Numbers are the integral ones (the
    sentinel [AUTO], EXIF orientation codes, dimensions); a string is a
    sequence of code units below 256; a function value carries its source
    text, which is all that string concatenation can observe of it; an
    error object carries its [name] and [message]. *)
Inductive js_value : Type :=
| JSUndefined
| JSNull
| JSBoolean (b : bool)
| JSNumber (z : Z)
| JSString (s : string)
| JSFunction (source : string)
| JSError (name message : string).

(** [typeof v]. *)
Definition typeof (v : js_value) : string :=
  match v with
  | JSUndefined => "undefined"
  | JSNull => "object"
  | JSBoolean _ => "boolean"
  | JSNumber _ => "number"
  | JSString _ => "string"
  | JSFunction _ => "function"
  | JSError _ _ => "object"
  end.

(** ToBoolean, as used by [if (v)], [v ? a : b] and [a && b]. *)
Definition truthy (v : js_value) : bool :=
  match v with
  | JSUndefined | JSNull => false
  | JSBoolean b => b
  | JSNumber z => negb (z =? 0)
  | JSString s => negb (s =? "")%string
  | JSFunction _ | JSError _ _ => true
  end.

(** [v === n] for a number literal [n]. *)
Definition strict_eq_number (v : js_value) (n : Z) : bool :=
  match v with JSNumber z => z =? n | _ => false end.

(** [v === s] for a string constant [s]. *)
Definition strict_eq_string (v : js_value) (s : string) : bool :=
  match v with JSString t => (t =? s)%string | _ => false end.

Definition string_of_Z (z : Z) : string :=
  NilEmpty.string_of_int (Z.to_int z).

(** ToString, as used by ['...' + v]. *)
Definition js_to_string (v : js_value) : string :=
  match v with
  | JSUndefined => "undefined"
  | JSNull => "null"
  | JSBoolean true => "true"
  | JSBoolean false => "false"
  | JSNumber z => string_of_Z z
  | JSString s => s
  | JSFunction src => src
  | JSError name message => name ++ ": " ++ message
  end.

(** *** [String.prototype.toLowerCase] on code units below 256 *)

(** A-Z, and the capital letters of the Latin-1 block (U+00C0 to U+00DE
    without the multiplication sign U+00D7), move up by 32. *)
Definition lower_code (n : N) : N :=
  if ((65 <=? n) && (n <=? 90))%N then (n + 32)%N
  else if ((192 <=? n) && (n <=? 222) && negb (n =? 215))%N then (n + 32)%N
  else n.

Definition lower_char (c : ascii) : ascii :=
  ascii_of_N (lower_code (N_of_ascii c)).

Fixpoint toLowerCase (s : string) : string :=
  match s with
  | EmptyString => EmptyString
  | String c r => String (lower_char c) (toLowerCase r)
  end.

(* ===================================================================== *)
(** ** constants.js *)
(* ===================================================================== *)

Module constants.
Definition AUTO : Z := -1.
Definition MIME_PNG : string := "image/png".
Definition MIME_TIFF : string := "image/tiff".
Definition MIME_JPEG : string := "image/jpeg".
Definition MIME_JGD : string := "image/jgd".
Definition MIME_BMP : string := "image/bmp".
Definition MIME_X_MS_BMP : string := "image/x-ms-bmp".
Definition MIME_GIF : string := "image/gif".
End constants.

(* ===================================================================== *)
(** ** The image entity *)
(* ===================================================================== *)

Definition buffer : Type := list byte.

(** [{ data, width, height }]. *)
Record Bitmap : Type := mkBitmap {
  data : buffer;
  width : js_value;
  height : js_value
}.

(** The part of an exif-parser result that [exifRotate] reads:
    [exif.tags] may be missing, and so may [exif.tags.Orientation]
    ([JSUndefined]). *)
Record exif_tags : Type := mkTags { Orientation : js_value }.
Record exif_data : Type := mkExif { tags : option exif_tags }.

(** The fields of [this] that the file reads or writes.  An unset
    [bitmap] or [_exif] is [None]. *)
Record image : Type := mkImage {
  bitmap : option Bitmap;
  _exif : option exif_data;
  _originalMime : js_value;
  _background : js_value;
  _quality : js_value;
  _rgba : js_value;
  _deflateLevel : js_value;
  _deflateStrategy : js_value;
  _filterType : js_value
}.

Definition set_bitmap (b : option Bitmap) (i : image) : image :=
  mkImage b (_exif i) (_originalMime i) (_background i) (_quality i)
          (_rgba i) (_deflateLevel i) (_deflateStrategy i) (_filterType i).

Definition set_exif (e : option exif_data) (i : image) : image :=
  mkImage (bitmap i) e (_originalMime i) (_background i) (_quality i)
          (_rgba i) (_deflateLevel i) (_deflateStrategy i) (_filterType i).

Definition set_originalMime (m : js_value) (i : image) : image :=
  mkImage (bitmap i) (_exif i) m (_background i) (_quality i)
          (_rgba i) (_deflateLevel i) (_deflateStrategy i) (_filterType i).

(* ===================================================================== *)
(** ** Completion callbacks and the execution monad *)
(* ===================================================================== *)

(** The second argument of a completion callback. *)
Inductive cb_payload : Type :=
| NoValue
| ImageValue (i : image)
| BufferValue (b : buffer).

(** One invocation of the completion callback: the receiver ([None] for a
    plain call [cb(...)]), the first argument and the second one.  Images
    are recorded as they are at the time of the call. *)
Record cb_event : Type := mkEvent {
  cb_this : option image;
  cb_error : js_value;
  cb_value : cb_payload
}.

(** What a statement can do: finish with a value, or throw. *)
Inductive completion (A : Type) : Type :=
| Normal (a : A)
| Throw (e : js_value).
Arguments Normal {A} a.
Arguments Throw {A} e.

(** The state a call runs in: the image ([this]) and the callback
    invocations made so far, oldest first. *)
Record world : Type := mkWorld {
  self : image;
  log : list cb_event
}.

Definition M (A : Type) : Type := world -> completion A * world.

Definition ret {A} (a : A) : M A := fun w => (Normal a, w).

Definition bind {A B} (m : M A) (k : A -> M B) : M B :=
  fun w => match m w with
           | (Normal a, w') => k a w'
           | (Throw e, w') => (Throw e, w')
           end.

Definition throw {A} (e : js_value) : M A := fun w => (Throw e, w).

(** [try { m } catch (e) { h e }]: the handler runs in the state the
    throw left behind. *)
Definition try_catch {A} (m : M A) (h : js_value -> M A) : M A :=
  fun w => match m w with
           | (Normal a, w') => (Normal a, w')
           | (Throw e, w') => h e w'
           end.

Definition get_this : M image := fun w => (Normal (self w), w).

Definition modify_this (f : image -> image) : M unit :=
  fun w => (Normal tt, mkWorld (f (self w)) (log w)).

(** A call into a library that touches neither the image nor the
    callback. *)
Definition lift {A} (c : completion A) : M A := fun w => (c, w).

Declare Scope js_scope.
Delimit Scope js_scope with js.
Notation "x <- m ;; k" := (bind m (fun x => k))
  (at level 61, m at next level, right associativity) : js_scope.
Notation "m ;; k" := (bind m (fun _ => k))
  (at level 61, right associativity) : js_scope.
Local Open Scope js_scope.

(** A method of the image entity defined in another file ([mirror],
    [rotate]) or a helper that works on the image in place ([toAGBR],
    [fromAGBR]): it reads the image, may throw, and leaves a bitmap
    behind; the other fields are not written.  [mirror] and [rotate]
    return the image, which is what the chained calls of [exifRotate]
    rely on. *)
Definition image_method : Type := image -> completion unit * option Bitmap.

Definition call_method (f : image_method) : M unit :=
  fun w => let (c, b) := f (self w) in
           (c, mkWorld (set_bitmap b (self w)) (log w)).

Definition is_function (v : js_value) : bool :=
  (typeof v =? "function")%string.

(** Calling the completion callback.  The callback is the caller's code:
    it is modelled as an observer, whose invocation is appended to the
    log; calling something that is not a function throws a TypeError.
    Here the callback returns from every invocation; the calls with a
    callback that may throw are in the module [Caller] below. *)
Definition call_cb (cb : js_value) (receiver : option image)
           (error : js_value) (value : cb_payload) : M unit :=
  fun w =>
    if is_function cb
    then (Normal tt, mkWorld (self w) (log w ++ [mkEvent receiver error value]))
    else (Throw (JSError "TypeError" "cb is not a function"), w).

(** What a call returns: [this], or whatever the callback returned. *)
Inductive returned : Type :=
| ReturnedThis
| ReturnedByCallback.

(** Modelled from the spec: [throwError] of [./error-checking] is not
    among the sources.  The spec has failures reported through the single
    completion callback, and counts a missing completion handler among the
    invalid arguments: the error is handed to the callback when there is
    one and thrown otherwise. *)
Definition throwError (message : string) (cb : js_value) : M returned :=
  if is_function cb
  then (this <- get_this ;;
        call_cb cb (Some this) (JSError "Error" message) NoValue ;;
        ret ReturnedByCallback)
  else throw (JSError "Error" message).

(* ===================================================================== *)
(** ** The libraries and methods the file calls *)
(* ===================================================================== *)

(** The result of [fileType(buffer)] when it recognises the bytes. *)
Record file_type : Type := mkFileType { ext : string; mime : string }.

(** An image file directory of utif; [t256] and [t257] are the width and
    height tags, and may be missing. *)
Record ifd : Type := mkIFD {
  t256 : option (list js_value);
  t257 : option (list js_value);
  ifd_data : option buffer
}.

(** What [new GIF.GifReader(data)] exposes. *)
Record GifReader : Type := mkGifReader {
  gif_width : Z;
  gif_height : Z;
  gif_source : buffer
}.

(** The object built by [new PNG({...})], with its [data]. *)
Record PNG : Type := mkPNG {
  png_width : js_value;
  png_height : js_value;
  bitDepth : Z;
  deflateLevel : js_value;
  deflateStrategy : js_value;
  filterType : js_value;
  colorType : Z;
  inputHasAlpha : bool;
  png_data : buffer
}.

(** Everything [image-bitmap.js] imports or calls on [this] and that is
    defined elsewhere.  A library call either returns or throws. *)
Class Environment : Type := {
  (** [fileType(buffer)]: [None] when no signature matches. *)
  fileType : buffer -> option file_type;
  (** [MIME.getType(path)]. *)
  MIME_getType : js_value -> js_value;
  (** [this.getMIME()]. *)
  getMIME : image -> js_value;
  (** [PNG.sync.read(data)]: its [data], [width] and [height]. *)
  PNG_sync_read : buffer -> completion Bitmap;
  (** [PNG.sync.write(png)]. *)
  PNG_sync_write : PNG -> completion buffer;
  (** [JPEG.decode(data)]. *)
  JPEG_decode : buffer -> completion Bitmap;
  (** [JPEG.encode(bitmap, quality).data]. *)
  JPEG_encode : option Bitmap -> js_value -> completion buffer;
  (** [EXIFParser.create(data).parse()]. *)
  EXIFParser_parse : buffer -> completion exif_data;
  (** [UTIF.decode(data)]. *)
  UTIF_decode : buffer -> completion (list ifd);
  (** [UTIF.decodeImages(data, ifds)]: the directories of [ifds], in
      order, as it leaves them (it fills them in place). *)
  UTIF_decodeImages : buffer -> list ifd -> completion (list ifd);
  (** [UTIF.toRGBA8(page)]. *)
  UTIF_toRGBA8 : option ifd -> completion buffer;
  (** [UTIF.encodeImage(data, width, height)]. *)
  UTIF_encodeImage : buffer -> js_value -> js_value -> completion buffer;
  (** [BMP.decode(data)]. *)
  BMP_decode : buffer -> completion Bitmap;
  (** [BMP.encode(bitmap).data]. *)
  BMP_encode : option Bitmap -> completion buffer;
  (** [new GIF.GifReader(data)]. *)
  GIF_GifReader : buffer -> completion GifReader;
  (** [gifObj.decodeAndBlitFrameRGBA(frame, pixels)]: the pixels after. *)
  decodeAndBlitFrameRGBA : GifReader -> Z -> buffer -> completion buffer;
  (** The largest size [Buffer.alloc] accepts. *)
  kMaxLength : Z;
  (** [img.mirror(horizontal, vertical)]. *)
  mirror : bool -> bool -> image_method;
  (** [img.rotate(deg, mode)]. *)
  rotate : Z -> bool -> image_method;
  (** [toAGBR(image)] and [fromAGBR(image)] of [./abgr]. *)
  toAGBR : image_method;
  fromAGBR : image_method;
  (** [new Jimp(w, h, background)]. *)
  Jimp_new : js_value -> js_value -> js_value -> completion image;
  (** [base.composite(src, x, y)]: the receiver after the call; [src] is
      read only. *)
  composite : image -> image -> Z -> Z -> completion image
}.

(** [Buffer.alloc(size)]: zero-filled. *)
Definition Buffer_alloc `{Environment} (size : Z) : completion buffer :=
  if (size <? 0) || (kMaxLength <? size)
  then Throw (JSError "RangeError" "Invalid typed array length")
  else Normal (repeat x00 (Z.to_nat size)).

(** [a[i]] on an array. *)
Definition index {A} (l : list A) (i : nat) (undefined : A) : A :=
  nth i l undefined.

Definition TypeError_undefined : js_value :=
  JSError "TypeError" "Cannot read property of undefined".

(** [this.bitmap.<field>]: reading a field of an unset bitmap throws. *)
Definition this_bitmap : M Bitmap :=
  this <- get_this ;;
  match bitmap this with
  | Some b => ret b
  | None => throw TypeError_undefined
  end.

(* ===================================================================== *)
(** ** image-bitmap.js *)
(* ===================================================================== *)

Section ImageBitmap.

Context `{Env : Environment}.

Definition getMIMEFromBuffer (buffer_ : buffer) (path : js_value) : js_value :=
  match fileType buffer_ with
  | Some fileTypeFromBuffer => JSString (mime fileTypeFromBuffer)
  | None =>
      if truthy path then MIME_getType path
      else JSNull
  end.

Definition getBitmapFromGIF (data_ : buffer) : completion Bitmap :=
  match GIF_GifReader data_ with
  | Throw e => Throw e
  | Normal gifObj =>
      match Buffer_alloc (gif_width gifObj * gif_height gifObj * 4) with
      | Throw e => Throw e
      | Normal gifData =>
          match decodeAndBlitFrameRGBA gifObj 0 gifData with
          | Throw e => Throw e
          | Normal gifData' =>
              Normal (mkBitmap gifData' (JSNumber (gif_width gifObj))
                               (JSNumber (gif_height gifObj)))
          end
      end
  end.

(** The [switch] of [exifRotate], on the orientation code. *)
Definition exifRotate_switch (orientation : js_value) : M unit :=
  if strict_eq_number orientation 1 then ret tt
  else if strict_eq_number orientation 2 then call_method (mirror true false)
  else if strict_eq_number orientation 3 then call_method (rotate 180 false)
  else if strict_eq_number orientation 4 then call_method (mirror false true)
  else if strict_eq_number orientation 5 then
    (call_method (rotate (-90) false) ;; call_method (mirror true false))
  else if strict_eq_number orientation 6 then call_method (rotate (-90) false)
  else if strict_eq_number orientation 7 then
    (call_method (rotate 90 false) ;; call_method (mirror true false))
  else if strict_eq_number orientation 8 then call_method (rotate (-270) false)
  else ret tt.

(** [exifRotate(img)] with [img] the image of the running call. *)
Definition exifRotate : M unit :=
  img <- get_this ;;
  match _exif img with
  | Some exif =>
      match tags exif with
      | Some t =>
          if truthy (Orientation t) then exifRotate_switch (Orientation t)
          else ret tt
      | None => ret tt
      end
  | None => ret tt
  end.

(** [page.t256[0]] and [page.t257[0]], [page] being [ifds[0]]. *)
Definition page_tag (page : option ifd) (tag : ifd -> option (list js_value))
  : M js_value :=
  match page with
  | Some p =>
      match tag p with
      | Some values => ret (index values 0 JSUndefined)
      | None => throw TypeError_undefined
      end
  | None => throw TypeError_undefined
  end.

(** The [switch (this.getMIME())] of [parseBitmap], inside its [try].
    [Some v] is a [return v] from within the switch, [None] a [break]. *)
Definition parseBitmap_switch (data_ : buffer) (mime_ : string) (cb : js_value)
  : M (option returned) :=
  this <- get_this ;;
  let m := getMIME this in
  if strict_eq_string m constants.MIME_PNG then
    png <- lift (PNG_sync_read data_) ;;
    modify_this (set_bitmap (Some (mkBitmap (data png) (width png) (height png)))) ;;
    ret None
  else if strict_eq_string m constants.MIME_JPEG then
    decoded <- lift (JPEG_decode data_) ;;
    modify_this (set_bitmap (Some decoded)) ;;
    try_catch
      (parsed <- lift (EXIFParser_parse data_) ;;
       modify_this (set_exif (Some parsed)) ;;
       exifRotate)
      (fun _ => ret tt) ;;
    ret None
  else if strict_eq_string m constants.MIME_TIFF then
    ifds <- lift (UTIF_decode data_) ;;
    (* [page] is bound to the object [ifds[0]] before [decodeImages] runs:
       undefined when [ifds] is empty, and otherwise the first directory,
       which [decodeImages] fills in place *)
    ifds' <- lift (UTIF_decodeImages data_ ifds) ;;
    let page :=
      match ifds with
      | [] => None
      | first :: _ => Some (hd first ifds')
      end in
    rgba <- lift (UTIF_toRGBA8 page) ;;
    w <- page_tag page t256 ;;
    h <- page_tag page t257 ;;
    modify_this (set_bitmap (Some (mkBitmap rgba w h))) ;;
    ret None
  else if strict_eq_string m constants.MIME_BMP
          || strict_eq_string m constants.MIME_X_MS_BMP then
    try_catch
      (decoded <- lift (BMP_decode data_) ;;
       modify_this (set_bitmap (Some decoded)) ;;
       call_method fromAGBR)
      (fun _ => ret tt) ;;
    ret None
  else if strict_eq_string m constants.MIME_GIF then
    decoded <- lift (getBitmapFromGIF data_) ;;
    modify_this (set_bitmap (Some decoded)) ;;
    ret None
  else
    r <- throwError ("Unsupported MIME type: " ++ mime_) cb ;;
    ret (Some r).

(** [parseBitmap.call(this, data, path, cb)]. *)
Definition parseBitmap (data_ : buffer) (path cb : js_value) : M returned :=
  match getMIMEFromBuffer data_ path with
  | JSString mime_ =>
      modify_this (set_originalMime (JSString (toLowerCase mime_))) ;;
      r <- try_catch
             (parseBitmap_switch data_ mime_ cb)
             (fun error =>
                this <- get_this ;;
                call_cb cb (Some this) error (ImageValue this) ;;
                ret None) ;;
      match r with
      | Some v => ret v
      | None =>
          this <- get_this ;;
          call_cb cb (Some this) JSNull (ImageValue this) ;;
          ret ReturnedThis
      end
  | _ =>
      (* typeof mime !== 'string' *)
      call_cb cb None
        (JSError "Error"
           ("Could not find MIME for Buffer <" ++ js_to_string path ++ ">"))
        NoValue ;;
      ret ReturnedByCallback
  end.

(** [compositeBitmapOverBackground(Jimp, image)]: the [bitmap] of a new
    image of the same size and background with [image] drawn over it. *)
Definition compositeBitmapOverBackground (image_ : image)
  : completion (option Bitmap) :=
  match bitmap image_ with
  | None => Throw TypeError_undefined
  | Some b =>
      match Jimp_new (width b) (height b) (_background image_) with
      | Throw e => Throw e
      | Normal base =>
          match composite base image_ 0 0 with
          | Throw e => Throw e
          | Normal flat => Normal (bitmap flat)
          end
      end
  end.

(** [x.data] for a value that may be undefined. *)
Definition data_of (b : option Bitmap) : M buffer :=
  match b with
  | Some b => ret (data b)
  | None => throw TypeError_undefined
  end.

(** The [switch (mime.toLowerCase())] of [getBuffer]; [cb] is a function
    here. *)
Definition getBuffer_switch (mime_ : string) (cb : js_value) : M unit :=
  let m := toLowerCase mime_ in
  if (m =? constants.MIME_PNG)%string then
    b <- this_bitmap ;;
    this <- get_this ;;
    let png := fun d =>
      mkPNG (width b) (height b) 8 (_deflateLevel this)
            (_deflateStrategy this) (_filterType this)
            (if truthy (_rgba this) then 6 else 2) true d in
    d <- (if truthy (_rgba this) then ret (data b)
          else
            c <- lift (compositeBitmapOverBackground this) ;; data_of c) ;;
    buffer_ <- lift (PNG_sync_write (png d)) ;;
    call_cb cb (Some this) JSNull (BufferValue buffer_)
  else if (m =? constants.MIME_JPEG)%string then
    this <- get_this ;;
    c <- lift (compositeBitmapOverBackground this) ;;
    jpeg <- lift (JPEG_encode c (_quality this)) ;;
    call_cb cb (Some this) JSNull (BufferValue jpeg)
  else if (m =? constants.MIME_BMP)%string
          || (m =? constants.MIME_X_MS_BMP)%string then
    call_method toAGBR ;;
    this <- get_this ;;
    c <- lift (compositeBitmapOverBackground this) ;;
    bmp <- lift (BMP_encode c) ;;
    call_cb cb (Some this) JSNull (BufferValue bmp)
  else if (m =? constants.MIME_TIFF)%string then
    this <- get_this ;;
    c <- lift (compositeBitmapOverBackground this) ;;
    match c with
    | Some c =>
        tiff <- lift (UTIF_encodeImage (data c) (width c) (height c)) ;;
        call_cb cb (Some this) JSNull (BufferValue tiff)
    | None => throw TypeError_undefined
    end
  else
    this <- get_this ;;
    call_cb cb (Some this) (JSString ("Unsupported MIME type: " ++ mime_)) NoValue.

(** [getBuffer.call(this, mime, cb)]. *)
Definition getBuffer (mime_ cb : js_value) : M returned :=
  this <- get_this ;;
  let mime_ :=
    if strict_eq_number mime_ constants.AUTO then getMIME this else mime_ in
  match mime_ with
  | JSString s =>
      if negb (is_function cb) then throwError "cb must be a function" cb
      else (getBuffer_switch s cb ;; ret ReturnedThis)
  | _ =>
      (* typeof mime !== 'string' *)
      throwError "mime must be a string" cb
  end.

End ImageBitmap.

(* ===================================================================== *)
(** ** The same calls, with a callback that may throw *)
(* ===================================================================== *)

(** The completion callback is the caller's code, and it may throw.  A
    [reaction] says, given the invocations made so far and the one being
    made, whether the callback returns ([None]) or throws ([Some e]). *)
Definition reaction : Type := list cb_event -> cb_event -> option js_value.

(** The callback that always returns. *)
Definition returns_normally : reaction := fun _ _ => None.

(** [parseBitmap] and [getBuffer] once more, line for line, over a
    callback with a reaction: an invocation is logged and then completes
    as the callback does. *)
Module Caller.

Section Calls.

Context `{Env : Environment}.

Variable react : reaction.

Definition call_cb (cb : js_value) (receiver : option image)
           (error : js_value) (value : cb_payload) : M unit :=
  fun w =>
    if is_function cb
    then (match react (log w) (mkEvent receiver error value) with
          | None => Normal tt
          | Some thrown => Throw thrown
          end,
          mkWorld (self w) (log w ++ [mkEvent receiver error value]))
    else (Throw (JSError "TypeError" "cb is not a function"), w).

(** Modelled from the spec: [throwError] of [./error-checking] is not
    among the sources.  The spec has failures reported through the single
    completion callback, and counts a missing completion handler among the
    invalid arguments: the error is handed to the callback when there is
    one and thrown otherwise. *)
Definition throwError (message : string) (cb : js_value) : M returned :=
  if is_function cb
  then (this <- get_this ;;
        call_cb cb (Some this) (JSError "Error" message) NoValue ;;
        ret ReturnedByCallback)
  else throw (JSError "Error" message).

(** The [switch (this.getMIME())] of [parseBitmap], inside its [try].
    [Some v] is a [return v] from within the switch, [None] a [break]. *)
Definition parseBitmap_switch (data_ : buffer) (mime_ : string) (cb : js_value)
  : M (option returned) :=
  this <- get_this ;;
  let m := getMIME this in
  if strict_eq_string m constants.MIME_PNG then
    png <- lift (PNG_sync_read data_) ;;
    modify_this (set_bitmap (Some (mkBitmap (data png) (width png) (height png)))) ;;
    ret None
  else if strict_eq_string m constants.MIME_JPEG then
    decoded <- lift (JPEG_decode data_) ;;
    modify_this (set_bitmap (Some decoded)) ;;
    try_catch
      (parsed <- lift (EXIFParser_parse data_) ;;
       modify_this (set_exif (Some parsed)) ;;
       exifRotate)
      (fun _ => ret tt) ;;
    ret None
  else if strict_eq_string m constants.MIME_TIFF then
    ifds <- lift (UTIF_decode data_) ;;
    (* [page] is bound to the object [ifds[0]] before [decodeImages] runs:
       undefined when [ifds] is empty, and otherwise the first directory,
       which [decodeImages] fills in place *)
    ifds' <- lift (UTIF_decodeImages data_ ifds) ;;
    let page :=
      match ifds with
      | [] => None
      | first :: _ => Some (hd first ifds')
      end in
    rgba <- lift (UTIF_toRGBA8 page) ;;
    w <- page_tag page t256 ;;
    h <- page_tag page t257 ;;
    modify_this (set_bitmap (Some (mkBitmap rgba w h))) ;;
    ret None
  else if strict_eq_string m constants.MIME_BMP
          || strict_eq_string m constants.MIME_X_MS_BMP then
    try_catch
      (decoded <- lift (BMP_decode data_) ;;
       modify_this (set_bitmap (Some decoded)) ;;
       call_method fromAGBR)
      (fun _ => ret tt) ;;
    ret None
  else if strict_eq_string m constants.MIME_GIF then
    decoded <- lift (getBitmapFromGIF data_) ;;
    modify_this (set_bitmap (Some decoded)) ;;
    ret None
  else
    r <- throwError ("Unsupported MIME type: " ++ mime_) cb ;;
    ret (Some r).

(** [parseBitmap.call(this, data, path, cb)]. *)
Definition parseBitmap (data_ : buffer) (path cb : js_value) : M returned :=
  match getMIMEFromBuffer data_ path with
  | JSString mime_ =>
      modify_this (set_originalMime (JSString (toLowerCase mime_))) ;;
      r <- try_catch
             (parseBitmap_switch data_ mime_ cb)
             (fun error =>
                this <- get_this ;;
                call_cb cb (Some this) error (ImageValue this) ;;
                ret None) ;;
      match r with
      | Some v => ret v
      | None =>
          this <- get_this ;;
          call_cb cb (Some this) JSNull (ImageValue this) ;;
          ret ReturnedThis
      end
  | _ =>
      (* typeof mime !== 'string' *)
      call_cb cb None
        (JSError "Error"
           ("Could not find MIME for Buffer <" ++ js_to_string path ++ ">"))
        NoValue ;;
      ret ReturnedByCallback
  end.

(** The [switch (mime.toLowerCase())] of [getBuffer]; [cb] is a function
    here. *)
Definition getBuffer_switch (mime_ : string) (cb : js_value) : M unit :=
  let m := toLowerCase mime_ in
  if (m =? constants.MIME_PNG)%string then
    b <- this_bitmap ;;
    this <- get_this ;;
    let png := fun d =>
      mkPNG (width b) (height b) 8 (_deflateLevel this)
            (_deflateStrategy this) (_filterType this)
            (if truthy (_rgba this) then 6 else 2) true d in
    d <- (if truthy (_rgba this) then ret (data b)
          else
            c <- lift (compositeBitmapOverBackground this) ;; data_of c) ;;
    buffer_ <- lift (PNG_sync_write (png d)) ;;
    call_cb cb (Some this) JSNull (BufferValue buffer_)
  else if (m =? constants.MIME_JPEG)%string then
    this <- get_this ;;
    c <- lift (compositeBitmapOverBackground this) ;;
    jpeg <- lift (JPEG_encode c (_quality this)) ;;
    call_cb cb (Some this) JSNull (BufferValue jpeg)
  else if (m =? constants.MIME_BMP)%string
          || (m =? constants.MIME_X_MS_BMP)%string then
    call_method toAGBR ;;
    this <- get_this ;;
    c <- lift (compositeBitmapOverBackground this) ;;
    bmp <- lift (BMP_encode c) ;;
    call_cb cb (Some this) JSNull (BufferValue bmp)
  else if (m =? constants.MIME_TIFF)%string then
    this <- get_this ;;
    c <- lift (compositeBitmapOverBackground this) ;;
    match c with
    | Some c =>
        tiff <- lift (UTIF_encodeImage (data c) (width c) (height c)) ;;
        call_cb cb (Some this) JSNull (BufferValue tiff)
    | None => throw TypeError_undefined
    end
  else
    this <- get_this ;;
    call_cb cb (Some this) (JSString ("Unsupported MIME type: " ++ mime_)) NoValue.

(** [getBuffer.call(this, mime, cb)]. *)
Definition getBuffer (mime_ cb : js_value) : M returned :=
  this <- get_this ;;
  let mime_ :=
    if strict_eq_number mime_ constants.AUTO then getMIME this else mime_ in
  match mime_ with
  | JSString s =>
      if negb (is_function cb) then throwError "cb must be a function" cb
      else (getBuffer_switch s cb ;; ret ReturnedThis)
  | _ =>
      (* typeof mime !== 'string' *)
      throwError "mime must be a string" cb
  end.

End Calls.

End Caller.

(* ===================================================================== *)
(** ** Running a call *)
(* ===================================================================== *)

(** A call on image [i] with no callback invocation made yet. *)
Definition run {A} (m : M A) (i : image) : completion A * world :=
  m (mkWorld i []).

(** The error kinds of the design, read off the error a call reports:
    the two argument checks of [getBuffer], the unsupported-MIME message,
    the sniffing failure of [parseBitmap]; anything else comes from a
    codec. *)
Inductive error_kind : Type :=
| UnknownFormat
| UnsupportedFormat
| CodecError
| InvalidArgument.

Fixpoint starts_with (p s : string) : bool :=
  match p with
  | EmptyString => true
  | String a p' =>
      match s with
      | String b s' => Ascii.eqb a b && starts_with p' s'
      | EmptyString => false
      end
  end.

Definition message_kind (message : string) : error_kind :=
  if (message =? "mime must be a string")%string
     || (message =? "cb must be a function")%string then InvalidArgument
  else if starts_with "Unsupported MIME type: " message then UnsupportedFormat
  else if starts_with "Could not find MIME for Buffer <" message then UnknownFormat
  else CodecError.

Definition error_kind_of (e : js_value) : error_kind :=
  match e with
  | JSError _ message => message_kind message
  | JSString message => message_kind message
  | _ => CodecError
  end.

(** A call that started with an empty log fails with an error of kind
    [k]: it throws that error without calling back, or it calls back
    exactly once, with that error and no value. *)
Definition fails_with {A} (k : error_kind) (out : completion A * world) : Prop :=
  (exists e, fst out = Throw e /\ log (snd out) = [] /\ error_kind_of e = k)
  \/
  (exists a ev, fst out = Normal a /\ log (snd out) = [ev]
                /\ cb_value ev = NoValue /\ error_kind_of (cb_error ev) = k).

(** The tokens [getBuffer] has an encoder for. *)
Definition encoder_tokens : list string :=
  [constants.MIME_PNG; constants.MIME_JPEG; constants.MIME_BMP;
   constants.MIME_X_MS_BMP; constants.MIME_TIFF].

Definition has_encoder (s : string) : bool :=
  existsb (String.eqb (toLowerCase s)) encoder_tokens.

(** The image as [parseBitmap] has it once the sniffed format is
    recorded ([this._originalMime = mime.toLowerCase()]). *)
Definition recorded (mime_ : string) (i : image) : image :=
  set_originalMime (JSString (toLowerCase mime_)) i.

(** The two invocations [parseBitmap] can make on the image [i]. *)
Definition success_event (i : image) : cb_event :=
  mkEvent (Some i) JSNull (ImageValue i).

Definition failure_event (i : image) (e : js_value) : cb_event :=
  mkEvent (Some i) e (ImageValue i).

(** *** The orientation table of the design

    The corrections of the EXIF Orientation Normalizer as the design lists
    them, code by code, kept apart from [exifRotate] so that the two can be
    compared. *)
Inductive correction : Type :=
| MirrorHorizontal
| MirrorVertical
| Rotate (degrees : Z).

Definition spec_correction (code : Z) : list correction :=
  match code with
  | 1 => []
  | 2 => [MirrorHorizontal]
  | 3 => [Rotate 180]
  | 4 => [MirrorVertical]
  | 5 => [Rotate (-90); MirrorHorizontal]
  | 6 => [Rotate (-90)]
  | 7 => [Rotate 90; MirrorHorizontal]
  | 8 => [Rotate (-270)]
  | _ => []
  end.

(** A correction as a call of the image's capability
    ([mirror(horizontal, vertical)], [rotate(degrees, resizeCanvas)]). *)
Definition apply_correction `{Environment} (c : correction) : M unit :=
  match c with
  | MirrorHorizontal => call_method (mirror true false)
  | MirrorVertical => call_method (mirror false true)
  | Rotate degrees => call_method (rotate degrees false)
  end.

(** The corrections in order; one that throws ends the sequence. *)
Fixpoint apply_corrections `{Environment} (cs : list correction) : M unit :=
  match cs with
  | [] => ret tt
  | c :: rest => apply_correction c ;; apply_corrections rest
  end.

(** An image whose EXIF metadata carries the orientation [o]. *)
Definition with_orientation (o : js_value) (i : image) : image :=
  set_exif (Some (mkExif (Some (mkTags o)))) i.

(** The closed set of format tokens of the design. *)
Definition format_tokens : list string :=
  [constants.MIME_PNG; constants.MIME_JPEG; constants.MIME_TIFF;
   constants.MIME_BMP; constants.MIME_X_MS_BMP; constants.MIME_GIF].

(** "A non-empty recognized string": a string, not empty, that is one of
    the format tokens up to letter case. *)
Definition recognized_target (v : js_value) : bool :=
  match v with
  | JSString s =>
      negb (s =? "")%string
      && existsb (String.eqb (toLowerCase s)) format_tokens
  | _ => false
  end.

(** The target of [getBuffer] once the sentinel is substituted. *)
Definition substituted `{Environment} (mime_ : js_value) (i : image) : js_value :=
  if strict_eq_number mime_ constants.AUTO then getMIME i else mime_.

(** The decode primitive of the format [format] throws [e] on [data_]:
    [PNG.sync.read], [JPEG.decode], [UTIF.decode] or the [GifReader]
    constructor. *)
Definition decode_throws `{Environment} (data_ : buffer) (format : js_value)
           (e : js_value) : Prop :=
  (format = JSString constants.MIME_PNG /\ PNG_sync_read data_ = Throw e)
  \/ (format = JSString constants.MIME_JPEG /\ JPEG_decode data_ = Throw e)
  \/ (format = JSString constants.MIME_TIFF /\ UTIF_decode data_ = Throw e)
  \/ (format = JSString constants.MIME_GIF /\ GIF_GifReader data_ = Throw e).

(** A computation that leaves the recorded format alone. *)
Definition keeps_format {A} (m : M A) : Prop :=
  forall w, _originalMime (self (snd (m w))) = _originalMime (self w).

(** *** Predicates on computations *)

(** A computation that never calls back. *)
Definition keeps_log {A} (m : M A) : Prop :=
  forall w, log (snd (m w)) = log w.

(** A computation that leaves the observation [f] of the image alone. *)
Definition keeps_field {X A} (f : image -> X) (m : M A) : Prop :=
  forall w, f (self (snd (m w))) = f (self w).

(** A case of the [switch] of [parseBitmap] that never calls back and
    either breaks out of the switch or throws. *)
Definition quiet_break (m : M (option returned)) : Prop :=
  forall w, log (snd (m w)) = log w
            /\ (fst (m w) = Normal None \/ exists e, fst (m w) = Throw e).


(** *** Outcomes with a callback that may throw *)

(** The success invocation of [parseBitmap] (line 163) on image [i], after
    the invocations [l]. *)
Definition succeed (react : reaction) (i : image) (l : list cb_event)
  : completion returned * world :=
  (match react l (success_event i) with
   | None => Normal ReturnedThis
   | Some thrown => Throw thrown
   end,
   mkWorld i (l ++ [success_event i])).

(** The [catch] of [parseBitmap] (lines 159-163) on image [i] and error
    [e], after the invocations [l]: the callback gets the error; if it
    throws, that is the end, and otherwise the success invocation
    follows. *)
Definition after_catch (react : reaction) (i : image) (l : list cb_event)
           (e : js_value) : completion returned * world :=
  match react l (failure_event i e) with
  | Some thrown => (Throw thrown, mkWorld i (l ++ [failure_event i e]))
  | None => succeed react i (l ++ [failure_event i e])
  end.


(** The encoder that answers for [token], run on image [i], returns
    [bytes] and leaves the image [final]: [PNG.sync.write] on the bitmap
    (with alpha support) or on its composite (without), [JPEG.encode] and
    [UTIF.encodeImage] on the composite, [BMP.encode] on the composite of
    the image converted by [toAGBR]. *)
Definition encoder_result `{Environment} (token : string) (i final : image)
           (bytes : buffer) : Prop :=
  (token = constants.MIME_PNG /\ final = i
   /\ exists b, bitmap i = Some b /\ truthy (_rgba i) = true
        /\ PNG_sync_write
             (mkPNG (width b) (height b) 8 (_deflateLevel i)
                    (_deflateStrategy i) (_filterType i) 6 true (data b))
           = Normal bytes)
  \/ (token = constants.MIME_PNG /\ final = i
      /\ exists b flat, bitmap i = Some b /\ truthy (_rgba i) = false
           /\ compositeBitmapOverBackground i = Normal (Some flat)
           /\ PNG_sync_write
                (mkPNG (width b) (height b) 8 (_deflateLevel i)
                       (_deflateStrategy i) (_filterType i) 2 true (data flat))
              = Normal bytes)
  \/ (token = constants.MIME_JPEG /\ final = i
      /\ exists flat, compositeBitmapOverBackground i = Normal flat
           /\ JPEG_encode flat (_quality i) = Normal bytes)
  \/ ((token = constants.MIME_BMP \/ token = constants.MIME_X_MS_BMP)
      /\ exists converted flat,
           toAGBR i = (Normal tt, converted)
           /\ final = set_bitmap converted i
           /\ compositeBitmapOverBackground final = Normal flat
           /\ BMP_encode flat = Normal bytes)
  \/ (token = constants.MIME_TIFF /\ final = i
      /\ exists flat, compositeBitmapOverBackground i = Normal (Some flat)
           /\ UTIF_encodeImage (data flat) (width flat) (height flat)
              = Normal bytes).

(** The outcome [out] of a call that started after the invocations [l]
    ends with a callback invocation and completes as that invocation did;
    at most two invocations come before it. *)
Definition completes_as_last (react : reaction) (l : list cb_event)
           {A} (out : completion A * world) : Prop :=
  exists earlier last,
    log (snd out) = (l ++ earlier ++ [last])%list
    /\ (List.length earlier <= 2)%nat
    /\ match fst out with
       | Normal _ => react (l ++ earlier)%list last = None
       | Throw e => react (l ++ earlier)%list last = Some e
       end.

(** The invocation that reports an unsupported format on image [i]. *)
Definition unsupported_event (i : image) (mime_ : string) : cb_event :=
  mkEvent (Some i) (JSError "Error" ("Unsupported MIME type: " ++ mime_))
          NoValue.

(** [getMIME] answers none of the six format tokens. *)
Definition unsupported_format (v : js_value) : bool :=
  negb (existsb (strict_eq_string v) format_tokens).

(** A PNG or GIF decode of [data_] that returns the bitmap [b]. *)
Definition decodes_to `{Environment} (data_ : buffer) (format : js_value)
           (b : Bitmap) : Prop :=
  (format = JSString constants.MIME_PNG /\ PNG_sync_read data_ = Normal b)
  \/ (format = JSString constants.MIME_GIF
      /\ getBitmapFromGIF data_ = Normal b).

(** *** constants.js: the Jimp directory *)

(** What [getJimpDir] reads of its surroundings: [process.env.BABEL_ENV],
    [process.env.ENV], [process.browser] and [__dirname]. *)
Record process : Type := mkProcess {
  env_BABEL_ENV : js_value;
  env_ENV : js_value;
  browser : js_value;
  __dirname : string
}.

Definition getJimpDir (p : process) : string :=
  if strict_eq_string (env_BABEL_ENV p) "test"
     && strict_eq_string (env_ENV p) "browser"
  then "http://localhost:9876/base/"
  else if truthy (browser p) then "/"
  else __dirname p ++ "/../".

Definition dirName (p : process) : string := getJimpDir p.

(** The font locations, relative to [dirName]. *)
Definition font_files : list string :=
  ["fonts/open-sans/open-sans-8-black/open-sans-8-black.fnt";
   "fonts/open-sans/open-sans-10-black/open-sans-10-black.fnt";
   "fonts/open-sans/open-sans-12-black/open-sans-12-black.fnt";
   "fonts/open-sans/open-sans-14-black/open-sans-14-black.fnt";
   "fonts/open-sans/open-sans-16-black/open-sans-16-black.fnt";
   "fonts/open-sans/open-sans-32-black/open-sans-32-black.fnt";
   "fonts/open-sans/open-sans-64-black/open-sans-64-black.fnt";
   "fonts/open-sans/open-sans-128-black/open-sans-128-black.fnt";
   "fonts/open-sans/open-sans-8-white/open-sans-8-white.fnt";
   "fonts/open-sans/open-sans-16-white/open-sans-16-white.fnt";
   "fonts/open-sans/open-sans-32-white/open-sans-32-white.fnt";
   "fonts/open-sans/open-sans-64-white/open-sans-64-white.fnt";
   "fonts/open-sans/open-sans-128-white/open-sans-128-white.fnt"].

(** [FONT_SANS_8_BLACK] and the other twelve, in the order of the file. *)
Definition FONTS (p : process) : list string :=
  map (fun file => dirName p ++ file) font_files.

(* ===================================================================== *)
(** ** An environment to run the calls on *)
(* ===================================================================== *)

(** Stand-ins for the libraries, small enough to evaluate: the sniffer
    looks at the leading signature bytes, the codecs keep the pixels
    uncompressed after the signature and throw on a truncated input, and
    [getMIME] returns the recorded format. *)
Module Sample.

Definition sniff (b : buffer) : option file_type :=
  match b with
  | x89 :: x50 :: x4e :: x47 :: _ => Some (mkFileType "png" "image/png")
  | xff :: xd8 :: xff :: _ => Some (mkFileType "jpg" "image/jpeg")
  | x42 :: x4d :: _ => Some (mkFileType "bmp" "image/bmp")
  | x47 :: x49 :: x46 :: _ => Some (mkFileType "gif" "image/gif")
  | x49 :: x49 :: x2a :: x00 :: _ => Some (mkFileType "tif" "image/tiff")
  | _ => None
  end.

Definition extension (p : string) : string :=
  substring (String.length p - 4) 4 p.

Definition type_of_path (path : js_value) : js_value :=
  match path with
  | JSString p =>
      if (extension p =? ".jpg")%string then JSString "image/jpeg"
      else if (extension p =? ".png")%string then JSString "image/png"
      else if (extension p =? ".bmp")%string then JSString "image/bmp"
      else JSUndefined
  | _ => JSUndefined
  end.

Definition pixels_of (b : buffer) : Bitmap :=
  mkBitmap b (JSNumber (Z.of_nat (List.length b) / 4)) (JSNumber 1).

(** Decoding needs [header] signature bytes and at least one pixel. *)
Definition unpack (header : nat) (b : buffer) : completion Bitmap :=
  if (List.length b <? header + 4)%nat
  then Throw (JSError "Error" "unexpected end of input")
  else Normal (pixels_of (skipn header b)).

Definition pack (signature : buffer) (b : option Bitmap) : completion buffer :=
  match b with
  | Some b => Normal (signature ++ data b)%list
  | None => Throw TypeError_undefined
  end.

(** The orientation is the byte after an APP1 marker, when there is one. *)
Definition parse_exif (b : buffer) : completion exif_data :=
  match b with
  | xff :: xd8 :: xff :: xe1 :: o :: _ =>
      Normal (mkExif (Some (mkTags (JSNumber (Z.of_N (Byte.to_N o))))))
  | _ => Throw (JSError "Error" "Invalid JPEG section offset")
  end.

Fixpoint swap_channels (b : buffer) : buffer :=
  match b with
  | r :: g :: bl :: a :: rest => a :: bl :: g :: r :: swap_channels rest
  | _ => b
  end.

Definition on_bitmap (f : Bitmap -> Bitmap) : image_method :=
  fun i => match bitmap i with
           | Some b => (Normal tt, Some (f b))
           | None => (Throw TypeError_undefined, None)
           end.

Definition flip (horizontal vertical : bool) : image_method :=
  on_bitmap (fun b =>
    mkBitmap (if xorb horizontal vertical then rev (data b) else data b)
             (width b) (height b)).

Definition turn (deg : Z) (mode : bool) : image_method :=
  on_bitmap (fun b =>
    if Z.odd (deg / 90) then mkBitmap (data b) (height b) (width b)
    else mkBitmap (rev (data b)) (width b) (height b)).

Definition abgr : image_method :=
  on_bitmap (fun b => mkBitmap (swap_channels (data b)) (width b) (height b)).

Definition blank (w h background : js_value) : completion image :=
  Normal (mkImage (Some (mkBitmap [] w h)) None JSUndefined background
                  (JSNumber 100) (JSBoolean true) (JSNumber 9) (JSNumber 3)
                  (JSNumber (-1))).

Definition draw_over (base src : image) (x y : Z) : completion image :=
  match bitmap src with
  | Some b => Normal (set_bitmap (Some b) base)
  | None => Throw TypeError_undefined
  end.

Definition env : Environment := {|
  fileType := sniff;
  MIME_getType := type_of_path;
  getMIME := _originalMime;
  PNG_sync_read := unpack 4;
  PNG_sync_write := fun png => Normal ([x89; x50; x4e; x47] ++ png_data png)%list;
  JPEG_decode := unpack 3;
  JPEG_encode := fun b _ => pack [xff; xd8; xff] b;
  EXIFParser_parse := parse_exif;
  UTIF_decode := fun b =>
    match unpack 4 b with
    | Normal px => Normal [mkIFD (Some [width px]) (Some [height px]) None]
    | Throw e => Throw e
    end;
  UTIF_decodeImages := fun b ifds =>
    Normal (map (fun d => mkIFD (t256 d) (t257 d) (Some (skipn 4 b))) ifds);
  UTIF_toRGBA8 := fun page =>
    match page with
    | Some (mkIFD _ _ (Some px)) => Normal px
    | _ => Throw TypeError_undefined
    end;
  UTIF_encodeImage := fun d _ _ => Normal ([x49; x49; x2a; x00] ++ d)%list;
  BMP_decode := unpack 2;
  BMP_encode := pack [x42; x4d];
  GIF_GifReader := fun b =>
    match unpack 3 b with
    | Normal px => Normal (mkGifReader (Z.of_nat (List.length (data px)) / 4) 1 b)
    | Throw e => Throw e
    end;
  decodeAndBlitFrameRGBA := fun g _ px =>
    Normal (firstn (List.length px) (skipn 3 (gif_source g)));
  kMaxLength := 2147483647;
  mirror := flip;
  rotate := turn;
  toAGBR := abgr;
  fromAGBR := abgr;
  Jimp_new := blank;
  composite := draw_over
|}.

(** An image fresh from the constructor: nothing decoded yet. *)
Definition fresh : image :=
  mkImage None None JSUndefined (JSNumber 0) (JSNumber 100) (JSBoolean true)
          (JSNumber 9) (JSNumber 3) (JSNumber (-1)).

(** A 1x1 half-transparent red pixel, as decoded from a PNG. *)
Definition red_pixel : image :=
  set_originalMime (JSString "image/png")
    (set_bitmap (Some (mkBitmap [xff; x00; x00; x80] (JSNumber 1) (JSNumber 1)))
                fresh).

(** The signatures alone, and complete inputs of one pixel. *)
Definition png_signature : buffer := [x89; x50; x4e; x47].
Definition bmp_signature : buffer := [x42; x4d].
Definition jpeg_without_exif : buffer :=
  [xff; xd8; xff; xe0; x10; x20; x30].
Definition unknown_bytes : buffer := [x00; x01; x02; x03].

Definition callback : js_value := JSFunction "function (err, image) {}".

(** A second environment: its sniffer also knows RIFF containers, for
    which [parseBitmap] has no case, and its utif finds no directory in any
    file. *)
Definition sniff_riff (b : buffer) : option file_type :=
  match b with
  | x52 :: x49 :: x46 :: x46 :: _ => Some (mkFileType "webp" "Image/WebP")
  | _ => sniff b
  end.

Definition env_riff : Environment := {|
  fileType := sniff_riff;
  MIME_getType := type_of_path;
  getMIME := _originalMime;
  PNG_sync_read := @PNG_sync_read env;
  PNG_sync_write := @PNG_sync_write env;
  JPEG_decode := @JPEG_decode env;
  JPEG_encode := @JPEG_encode env;
  EXIFParser_parse := parse_exif;
  UTIF_decode := fun _ => Normal [];
  UTIF_decodeImages := fun _ ifds => Normal ifds;
  UTIF_toRGBA8 := @UTIF_toRGBA8 env;
  UTIF_encodeImage := @UTIF_encodeImage env;
  BMP_decode := @BMP_decode env;
  BMP_encode := @BMP_encode env;
  GIF_GifReader := @GIF_GifReader env;
  decodeAndBlitFrameRGBA := @decodeAndBlitFrameRGBA env;
  kMaxLength := @kMaxLength env;
  mirror := flip;
  rotate := turn;
  toAGBR := abgr;
  fromAGBR := abgr;
  Jimp_new := blank;
  composite := draw_over
|}.

(** Complete inputs of one pixel, and a RIFF header. *)
Definition png_pixel : buffer := [x89; x50; x4e; x47; xff; x00; x00; x80].
Definition gif_pixel : buffer := [x47; x49; x46; x0a; x0b; x0c; x0d].
Definition bmp_pixel : buffer := [x42; x4d; x80; x00; x00; xff].
Definition tiff_pixel : buffer := [x49; x49; x2a; x00; x01; x02; x03; x04].
Definition riff_bytes : buffer := [x52; x49; x46; x46; x00].

(** An image that still carries the metadata of an earlier JPEG. *)
Definition tagged : image :=
  set_exif (Some (mkExif (Some (mkTags (JSNumber 6))))) fresh.

(** The callback [function (err) { if (err) throw err; }]. *)
Definition throws_on_error : reaction :=
  fun _ invocation =>
    if truthy (cb_error invocation) then Some (cb_error invocation) else None.

(** A process outside the browser. *)
Definition node : process :=
  mkProcess JSUndefined JSUndefined JSUndefined "/app/node_modules/jimp/dist".

End Sample.

(* ===================================================================== *)
(** ** Basic facts *)
(* ===================================================================== *)

Lemma lower_char_idempotent (c : ascii) :
  lower_char (lower_char c) = lower_char c.
Proof.
  destruct c as [[] [] [] [] [] [] [] []]; vm_compute; reflexivity.
Qed.

Lemma toLowerCase_idempotent (s : string) :
  toLowerCase (toLowerCase s) = toLowerCase s.
Proof.
  induction s as [| c r IH]; simpl.
  - reflexivity.
  - now rewrite lower_char_idempotent, IH.
Qed.

(** Unfolds the plumbing of the monad. *)
Ltac run_js :=
  unfold run, bind, ret, throw, lift, try_catch, get_this, modify_this,
    call_method, call_cb, throwError in *;
  cbn [fst snd self log] in *.

(* ===================================================================== *)
(** ** Decoding: [parseBitmap] *)
(* ===================================================================== *)

Section Decode.

Context `{Env : Environment}.

(** C1 (what the code does where the claim fails).  When the buffer is
    identified as PNG, JPEG, TIFF or GIF and the decode primitive of that
    format throws [e], the [catch] block hands [e] to the callback and the
    call then goes on to the success invocation after the [try]: the
    completion callback is invoked twice, first with the error (together
    with the image), then with a null error and the image. *)
Theorem parseBitmap_decode_throw_calls_back_twice
  (data_ : buffer) (path cb : js_value) (i : image) (l : list cb_event)
  (mime_ : string) (e : js_value) :
  getMIMEFromBuffer data_ path = JSString mime_ ->
  decode_throws data_ (getMIME (recorded mime_ i)) e ->
  is_function cb = true ->
  parseBitmap data_ path cb (mkWorld i l)
  = (Normal ReturnedThis,
     mkWorld (recorded mime_ i)
             (l ++ [failure_event (recorded mime_ i) e;
                    success_event (recorded mime_ i)])).
Proof.
  intros Hmime Hdec Hcb.
  unfold parseBitmap. rewrite Hmime.
  unfold parseBitmap_switch, getBitmapFromGIF. run_js. fold (recorded mime_ i).
  destruct Hdec as [[Hget He] | [[Hget He] | [[Hget He] | [Hget He]]]];
    rewrite Hget; cbn; rewrite He, Hcb; cbn;
    now rewrite <- app_assoc.
Qed.

(** C2.  When the buffer is identified as BMP ([image/bmp] or
    [image/x-ms-bmp]) and [BMP.decode] throws, the inner [catch] swallows
    the error: the call returns normally, the callback is invoked exactly
    once, with a null error, and the bitmap is what it was before the call
    (unset on an image that had none). *)
Theorem parseBitmap_bmp_decode_failure_swallowed
  (data_ : buffer) (path cb : js_value) (i : image) (l : list cb_event)
  (mime_ : string) (e : js_value) :
  getMIMEFromBuffer data_ path = JSString mime_ ->
  getMIME (recorded mime_ i) = JSString constants.MIME_BMP
  \/ getMIME (recorded mime_ i) = JSString constants.MIME_X_MS_BMP ->
  BMP_decode data_ = Throw e ->
  is_function cb = true ->
  parseBitmap data_ path cb (mkWorld i l)
  = (Normal ReturnedThis,
     mkWorld (recorded mime_ i) (l ++ [success_event (recorded mime_ i)]))
  /\ bitmap (recorded mime_ i) = bitmap i
  /\ (bitmap i = None ->
      bitmap (self (snd (parseBitmap data_ path cb (mkWorld i l)))) = None).
Proof.
  intros Hmime Hget Hdec Hcb.
  assert (Hrun : parseBitmap data_ path cb (mkWorld i l)
                 = (Normal ReturnedThis,
                    mkWorld (recorded mime_ i)
                            (l ++ [success_event (recorded mime_ i)]))).
  { unfold parseBitmap. rewrite Hmime.
    unfold parseBitmap_switch. run_js. fold (recorded mime_ i).
    destruct Hget as [Hget | Hget]; rewrite Hget; cbn;
      rewrite Hdec; cbn; rewrite Hcb; reflexivity. }
  split; [exact Hrun | split].
  - reflexivity.
  - intros Hnone. rewrite Hrun. exact Hnone.
Qed.

Lemma call_method_log (f : image_method) (w : world) :
  log (snd (call_method f w)) = log w.
Proof. unfold call_method. now destruct (f (self w)). Qed.

Lemma exifRotate_switch_log (o : js_value) (w : world) :
  log (snd (exifRotate_switch o w)) = log w.
Proof.
  unfold exifRotate_switch.
  repeat match goal with
         | |- context [if ?c then _ else _] => destruct c
         end;
    try reflexivity; try apply call_method_log;
    unfold bind;
    match goal with
    | |- context [call_method ?f w] =>
        pose proof (call_method_log f w) as Hfirst;
        destruct (call_method f w) as [[[] | e] w1]; cbn [snd] in *;
        [rewrite call_method_log; exact Hfirst | exact Hfirst]
    end.
Qed.

(** [exifRotate] never touches the completion callback. *)
Lemma exifRotate_log (w : world) : log (snd (exifRotate w)) = log w.
Proof.
  unfold exifRotate, bind, get_this, ret.
  destruct (_exif (self w)) as [[[t |]] |]; try reflexivity.
  cbn [tags]. destruct (truthy (Orientation t)); [apply exifRotate_switch_log | reflexivity].
Qed.

Lemma spec_correction_codes (code : Z) :
  spec_correction code
  = if code =? 1 then []
    else if code =? 2 then [MirrorHorizontal]
    else if code =? 3 then [Rotate 180]
    else if code =? 4 then [MirrorVertical]
    else if code =? 5 then [Rotate (-90); MirrorHorizontal]
    else if code =? 6 then [Rotate (-90)]
    else if code =? 7 then [Rotate 90; MirrorHorizontal]
    else if code =? 8 then [Rotate (-270)]
    else [].
Proof.
  destruct code as [| p | p]; try reflexivity.
  do 4 (try destruct p as [p | p |]); reflexivity.
Qed.

(** C4.  [exifRotate] applies, for every orientation code, exactly the
    corrections the table of the design lists for it, in that order: none
    for code 1, mirror horizontal for 2, rotate 180 for 3, mirror vertical
    for 4, rotate -90 then mirror horizontal for 5, rotate -90 for 6,
    rotate 90 then mirror horizontal for 7, rotate -270 for 8, and none for
    any other number.  With code 1, with no metadata, with metadata that
    has no tags or no orientation tag, the image (and so its bitmap) is
    left exactly as it was. *)
Theorem exifRotate_follows_orientation_table (i : image) (l : list cb_event) :
  (forall code : Z,
      exifRotate (mkWorld (with_orientation (JSNumber code) i) l)
      = apply_corrections (spec_correction code)
                          (mkWorld (with_orientation (JSNumber code) i) l))
  /\ exifRotate (mkWorld (with_orientation (JSNumber 1) i) l)
     = (Normal tt, mkWorld (with_orientation (JSNumber 1) i) l)
  /\ exifRotate (mkWorld (set_exif None i) l)
     = (Normal tt, mkWorld (set_exif None i) l)
  /\ exifRotate (mkWorld (set_exif (Some (mkExif None)) i) l)
     = (Normal tt, mkWorld (set_exif (Some (mkExif None)) i) l)
  /\ exifRotate (mkWorld (with_orientation JSUndefined i) l)
     = (Normal tt, mkWorld (with_orientation JSUndefined i) l).
Proof.
  split; [| repeat split].
  intros code. rewrite spec_correction_codes.
  unfold exifRotate, exifRotate_switch, with_orientation.
  unfold bind at 1. unfold get_this at 1.
  cbn [self _exif set_exif tags Orientation truthy strict_eq_number].
  destruct (Z.eqb_spec code 0) as [-> | _]; [reflexivity |].
  cbn [negb].
  repeat match goal with
         | |- context [code =? ?n] => destruct (code =? n)
         end;
    cbn [apply_corrections apply_correction];
    unfold bind, ret;
    repeat match goal with
           | |- context [call_method ?f ?w] =>
               destruct (call_method f w) as [[[] | ?] ?]
           end;
    reflexivity.
Qed.

(** C5.  When the buffer is identified as JPEG and [JPEG.decode] returns a
    bitmap, the call completes normally whatever the EXIF step does: the
    callback is invoked exactly once, with a null error and the image, and
    nothing is thrown.  If the metadata parse throws, the image holds the
    decoded bitmap as decoded; if the parse succeeds, the image is the one
    [exifRotate] left, whether it returned or threw. *)
Theorem parseBitmap_jpeg_exif_failure_swallowed
  (data_ : buffer) (path cb : js_value) (i : image) (l : list cb_event)
  (mime_ : string) (decoded : Bitmap) :
  getMIMEFromBuffer data_ path = JSString mime_ ->
  getMIME (recorded mime_ i) = JSString constants.MIME_JPEG ->
  JPEG_decode data_ = Normal decoded ->
  is_function cb = true ->
  exists final : image,
    parseBitmap data_ path cb (mkWorld i l)
    = (Normal ReturnedThis, mkWorld final (l ++ [success_event final]))
    /\ (forall e, EXIFParser_parse data_ = Throw e ->
                  final = set_bitmap (Some decoded) (recorded mime_ i))
    /\ (forall parsed, EXIFParser_parse data_ = Normal parsed ->
          final = self (snd (exifRotate
                    (mkWorld (set_exif (Some parsed)
                                (set_bitmap (Some decoded) (recorded mime_ i)))
                             l)))).
Proof.
  intros Hmime Hget Hdec Hcb.
  unfold parseBitmap. rewrite Hmime.
  unfold parseBitmap_switch.
  unfold bind, modify_this, try_catch, get_this, lift, ret.
  cbn [self log]. fold (recorded mime_ i). rewrite Hget.
  cbn -[exifRotate]. rewrite Hdec. cbn -[exifRotate].
  destruct (EXIFParser_parse data_) as [parsed | e].
  - pose proof (exifRotate_log
                  (mkWorld (set_exif (Some parsed)
                              (set_bitmap (Some decoded) (recorded mime_ i))) l))
      as Hlog.
    destruct (exifRotate _) as [[[] | e] [final l']] eqn:Hrot;
      cbn [snd log] in Hlog; subst l';
      exists final; unfold call_cb; rewrite Hcb; cbn [self log snd];
      (split; [reflexivity | split; [discriminate |]]);
      intros parsed' [= <-]; rewrite Hrot; reflexivity.
  - exists (set_bitmap (Some decoded) (recorded mime_ i)).
    unfold call_cb. rewrite Hcb. cbn [self log].
    split; [reflexivity | split; [reflexivity | discriminate]].
Qed.

(** C6.  [getMIMEFromBuffer] returns what the byte sniffer finds, whatever
    the path; it asks [MIME.getType] about the path only when the sniffer
    finds nothing and a path is given; and when the sniffer finds nothing
    and either no path is given or the path yields no string,
    [parseBitmap] reports, in its only callback invocation, the error
    "Could not find MIME for Buffer <path>", and leaves the image as it
    was. *)
Theorem format_sniffing_order
  (data_ : buffer) (path cb : js_value) (i : image) (l : list cb_event) :
  (forall found, fileType data_ = Some found ->
                 getMIMEFromBuffer data_ path = JSString (mime found))
  /\ (fileType data_ = None -> truthy path = true ->
      getMIMEFromBuffer data_ path = MIME_getType path)
  /\ (fileType data_ = None ->
      truthy path = false \/ typeof (MIME_getType path) <> "string" ->
      is_function cb = true ->
      parseBitmap data_ path cb (mkWorld i l)
      = (Normal ReturnedByCallback,
         mkWorld i
           (l ++ [mkEvent None
                    (JSError "Error"
                       ("Could not find MIME for Buffer <"
                        ++ js_to_string path ++ ">"))
                    NoValue]))).
Proof.
  unfold parseBitmap, getMIMEFromBuffer.
  split; [| split].
  - intros found ->. reflexivity.
  - intros -> ->. reflexivity.
  - intros -> Hpath Hcb.
    assert (Hnot : forall s, (if truthy path then MIME_getType path else JSNull)
                             <> JSString s).
    { intros s Heq. destruct Hpath as [Hfalse | Htype].
      - rewrite Hfalse in Heq. discriminate.
      - destruct (truthy path); [| discriminate].
        rewrite Heq in Htype. now apply Htype. }
    destruct (if truthy path then MIME_getType path else JSNull) as [| | | | s | |];
      try (run_js; rewrite Hcb; reflexivity).
    now destruct (Hnot s).
Qed.

End Decode.

(* ===================================================================== *)
(** ** Encoding: [getBuffer] *)
(* ===================================================================== *)

Section Encode.

Context `{Env : Environment}.

Lemma unsupported_message_kind (s : string) :
  message_kind ("Unsupported MIME type: " ++ s) = UnsupportedFormat.
Proof. reflexivity. Qed.

(** What [getBuffer] does with a string target that no [case] matches. *)
Lemma getBuffer_default (s : string) (cb : js_value) (i : image)
      (l : list cb_event) :
  has_encoder s = false ->
  is_function cb = true ->
  getBuffer (JSString s) cb (mkWorld i l)
  = (Normal ReturnedThis,
     mkWorld i (l ++ [mkEvent (Some i)
                        (JSString ("Unsupported MIME type: " ++ s)) NoValue])).
Proof.
  intros Henc Hcb.
  unfold has_encoder, encoder_tokens in Henc. cbn [existsb] in Henc.
  repeat (apply orb_false_elim in Henc; destruct Henc as [? Henc]).
  unfold getBuffer, getBuffer_switch. run_js.
  cbn [strict_eq_number]. rewrite Hcb. cbn [negb].
  repeat match goal with
         | H : (toLowerCase s =? _)%string = false |- _ => rewrite H; clear H
         end.
  cbn [orb]. rewrite ?Hcb. reflexivity.
Qed.

(** C7.  Encoding to [image/gif] (in any letter case) with a completion
    callback fails with the unsupported-format error: no [case] of
    [getBuffer] matches, so the callback is invoked exactly once, with
    "Unsupported MIME type: " followed by the target and no buffer; no
    encoder runs and the image is unchanged, whatever its bitmap. *)
Theorem getBuffer_gif_unsupported
  (mime_ : string) (cb : js_value) (i : image) (l : list cb_event) :
  toLowerCase mime_ = constants.MIME_GIF ->
  is_function cb = true ->
  getBuffer (JSString mime_) cb (mkWorld i l)
  = (Normal ReturnedThis,
     mkWorld i (l ++ [mkEvent (Some i)
                        (JSString ("Unsupported MIME type: " ++ mime_))
                        NoValue]))
  /\ fails_with UnsupportedFormat (run (getBuffer (JSString mime_) cb) i).
Proof.
  intros Hgif Hcb.
  assert (Henc : has_encoder mime_ = false).
  { unfold has_encoder. rewrite Hgif. reflexivity. }
  split.
  - now apply getBuffer_default.
  - unfold run. rewrite (getBuffer_default _ _ _ _ Henc Hcb).
    right. eexists _, _. cbn [fst snd log app].
    split; [reflexivity | split; [reflexivity | split; [reflexivity |]]].
    apply unsupported_message_kind.
Qed.

(** C8.  Encoding with the sentinel [AUTO] is encoding with the format
    [this.getMIME()] returns for the image: the two calls give the same
    completion, the same callback invocations and the same final image.
    Where [getMIME] returns the format recorded at decode time
    ([_originalMime]), that is encoding with the recorded format. *)
Theorem getBuffer_auto_is_recorded_format (cb : js_value) (w : world) :
  getBuffer (JSNumber constants.AUTO) cb w = getBuffer (getMIME (self w)) cb w
  /\ (getMIME (self w) = _originalMime (self w) ->
      getBuffer (JSNumber constants.AUTO) cb w
      = getBuffer (_originalMime (self w)) cb w).
Proof.
  assert (Hauto : getBuffer (JSNumber constants.AUTO) cb w
                  = getBuffer (getMIME (self w)) cb w).
  { unfold getBuffer, bind, get_this. cbn [strict_eq_number].
    change (constants.AUTO =? constants.AUTO) with true. cbn iota.
    destruct (strict_eq_number (getMIME (self w)) constants.AUTO);
      reflexivity. }
  split; [exact Hauto |].
  intros <-. exact Hauto.
Qed.

(** C9.  Encoding to a BMP target ([image/bmp] or [image/x-ms-bmp], in any
    letter case) first runs [toAGBR] on the image itself and never undoes
    it: after the call the image holds the bitmap [toAGBR] left, whether
    the call returned or threw.  The encoder is fed the composite of the
    converted image, and the callback receives the encoder's bytes. *)
Theorem getBuffer_bmp_converts_in_place
  (mime_ : string) (cb : js_value) (i : image) (l : list cb_event) :
  toLowerCase mime_ = constants.MIME_BMP
  \/ toLowerCase mime_ = constants.MIME_X_MS_BMP ->
  is_function cb = true ->
  let converted := set_bitmap (snd (toAGBR i)) i in
  let out := getBuffer (JSString mime_) cb (mkWorld i l) in
  self (snd out) = converted
  /\ (forall e, fst (toAGBR i) = Throw e ->
                out = (Throw e, mkWorld converted l))
  /\ (fst (toAGBR i) = Normal tt ->
      forall flat bytes,
        compositeBitmapOverBackground converted = Normal flat ->
        BMP_encode flat = Normal bytes ->
        out = (Normal ReturnedThis,
               mkWorld converted
                 (l ++ [mkEvent (Some converted) JSNull (BufferValue bytes)]))).
Proof.
  intros Hbmp Hcb converted out. subst converted out.
  unfold getBuffer, getBuffer_switch. run_js.
  cbn [strict_eq_number]. rewrite Hcb. cbn [negb].
  assert (Hcase :
            ((toLowerCase mime_ =? constants.MIME_PNG)%string = false
             /\ (toLowerCase mime_ =? constants.MIME_JPEG)%string = false
             /\ ((toLowerCase mime_ =? constants.MIME_BMP)%string
                 || (toLowerCase mime_ =? constants.MIME_X_MS_BMP)%string)
                = true)).
  { destruct Hbmp as [-> | ->]; repeat split. }
  destruct Hcase as (-> & -> & ->). cbn [self log fst snd].
  destruct (toAGBR i) as [[[] | e] b]; cbn [self log fst snd].
  - destruct (compositeBitmapOverBackground (set_bitmap b i))
      as [flat | e] eqn:Hflat.
    + destruct (BMP_encode flat) as [bytes | e] eqn:Hbytes;
        rewrite ?Hcb; cbn [self snd].
      * split; [reflexivity | split; [discriminate |]].
        intros _ flat' bytes' [= <-] Hbytes'.
        rewrite Hbytes in Hbytes'. injection Hbytes' as <-. reflexivity.
      * split; [reflexivity | split; [discriminate |]].
        intros _ flat' bytes' [= <-] Hbytes'. congruence.
    + split; [reflexivity | split; discriminate].
  - split; [reflexivity | split; [| discriminate]].
    intros e' [= <-]. reflexivity.
Qed.

(** [getBuffer] in terms of the substituted target. *)
Lemma getBuffer_substituted (mime_ cb : js_value) (w : world) :
  getBuffer mime_ cb w
  = match substituted mime_ (self w) with
    | JSString s =>
        if negb (is_function cb) then throwError "cb must be a function" cb w
        else (getBuffer_switch s cb ;; ret ReturnedThis) w
    | _ => throwError "mime must be a string" cb w
    end.
Proof.
  unfold getBuffer, substituted. unfold bind at 1. unfold get_this.
  destruct (if strict_eq_number mime_ constants.AUTO
            then getMIME (self w) else mime_); try reflexivity.
  destruct (negb (is_function cb)); reflexivity.
Qed.

(** [throwError] fails with the kind of its message, with or without a
    callback. *)
Lemma throwError_fails (message : string) (cb : js_value) (i : image) :
  fails_with (message_kind message) (throwError message cb (mkWorld i [])).
Proof.
  unfold throwError. destruct (is_function cb) eqn:Hcb.
  - right. exists ReturnedByCallback.
    exists (mkEvent (Some i) (JSError "Error" message) NoValue).
    run_js. rewrite Hcb. repeat split.
  - left. exists (JSError "Error" message). repeat split.
Qed.

(** C3 (as the code has it).  A target that, once the sentinel is
    substituted, is not a string fails with the invalid-argument error
    "mime must be a string", and a string target with no completion
    callback fails with the invalid-argument error "cb must be a function".
    A string target for which [getBuffer] has no encoder, the empty string
    among them, is not an invalid argument: with a completion callback it
    fails with the unsupported-format error. *)
Theorem getBuffer_target_validation
  (mime_ cb : js_value) (i : image) :
  (typeof (substituted mime_ i) <> "string" ->
   fails_with InvalidArgument (run (getBuffer mime_ cb) i))
  /\ (typeof (substituted mime_ i) = "string" -> is_function cb = false ->
      fails_with InvalidArgument (run (getBuffer mime_ cb) i))
  /\ (forall s, substituted mime_ i = JSString s ->
                has_encoder s = false -> is_function cb = true ->
                fails_with UnsupportedFormat (run (getBuffer mime_ cb) i)
                /\ ~ fails_with InvalidArgument (run (getBuffer mime_ cb) i)).
Proof.
  split; [| split].
  - intros Htype. unfold run. rewrite getBuffer_substituted. cbn [self].
    destruct (substituted mime_ i);
      try apply (throwError_fails "mime must be a string").
    now destruct Htype.
  - intros Htype Hcb. unfold run. rewrite getBuffer_substituted. cbn [self].
    destruct (substituted mime_ i); try discriminate.
    rewrite Hcb. apply (throwError_fails "cb must be a function").
  - intros s Htarget Henc Hcb.
    assert (Hrun : run (getBuffer mime_ cb) i
                   = run (getBuffer (JSString s) cb) i).
    { unfold run. rewrite !getBuffer_substituted. cbn [self].
      now rewrite Htarget. }
    rewrite Hrun. unfold run. rewrite (getBuffer_default _ _ _ _ Henc Hcb).
    cbn [app]. split.
    + right. eexists _, _. cbn [fst snd log cb_value cb_error error_kind_of].
      split; [reflexivity | split; [reflexivity | split; [reflexivity |]]].
      apply unsupported_message_kind.
    + intros [(e & Hthrow & _) | (a & ev & _ & Hlog & _ & Hkind)].
      * discriminate.
      * cbn [snd log] in Hlog. injection Hlog as <-.
        cbn in Hkind. discriminate.
Qed.

End Encode.

(* ===================================================================== *)
(** ** Letter case of format identifiers *)
(* ===================================================================== *)

Section LetterCase.

Context `{Env : Environment}.

Create HintDb keeps discriminated.

Lemma keeps_ret {A} (a : A) : keeps_format (ret a).
Proof. intros w. reflexivity. Qed.

Lemma keeps_throw {A} (e : js_value) : keeps_format (@throw A e).
Proof. intros w. reflexivity. Qed.

Lemma keeps_lift {A} (c : completion A) : keeps_format (lift c).
Proof. intros w. reflexivity. Qed.

Lemma keeps_get_this : keeps_format get_this.
Proof. intros w. reflexivity. Qed.

Lemma keeps_set_bitmap (b : option Bitmap) :
  keeps_format (modify_this (set_bitmap b)).
Proof. intros w. reflexivity. Qed.

Lemma keeps_set_exif (e : option exif_data) :
  keeps_format (modify_this (set_exif e)).
Proof. intros w. reflexivity. Qed.

Lemma keeps_call_method (f : image_method) : keeps_format (call_method f).
Proof. intros w. unfold call_method. now destruct (f (self w)). Qed.

Lemma keeps_call_cb cb receiver error value :
  keeps_format (call_cb cb receiver error value).
Proof. intros w. unfold call_cb. now destruct (is_function cb). Qed.

Lemma keeps_bind {A B} (m : M A) (k : A -> M B) :
  keeps_format m -> (forall a, keeps_format (k a)) -> keeps_format (bind m k).
Proof.
  intros Hm Hk w. unfold bind. specialize (Hm w).
  destruct (m w) as [[a | e] w']; cbn [snd] in *.
  - now rewrite Hk.
  - exact Hm.
Qed.

Lemma keeps_try_catch {A} (m : M A) (h : js_value -> M A) :
  keeps_format m -> (forall e, keeps_format (h e)) ->
  keeps_format (try_catch m h).
Proof.
  intros Hm Hh w. unfold try_catch. specialize (Hm w).
  destruct (m w) as [[a | e] w']; cbn [snd] in *.
  - exact Hm.
  - now rewrite Hh.
Qed.

Lemma keeps_if {A} (c : bool) (m1 m2 : M A) :
  keeps_format m1 -> keeps_format m2 -> keeps_format (if c then m1 else m2).
Proof. now destruct c. Qed.

#[local] Hint Resolve keeps_ret keeps_throw keeps_lift keeps_get_this
  keeps_set_bitmap keeps_set_exif keeps_call_method keeps_call_cb
  keeps_bind keeps_try_catch keeps_if : keeps.

Lemma keeps_throwError message cb : keeps_format (throwError message cb).
Proof. unfold throwError. auto 10 with keeps. Qed.

Lemma keeps_exifRotate : keeps_format exifRotate.
Proof.
  unfold exifRotate. apply keeps_bind; [auto with keeps |].
  intros img. destruct (_exif img) as [[[t |]] |]; auto with keeps.
  cbn [tags]. unfold exifRotate_switch. auto 20 with keeps.
Qed.

Lemma keeps_page_tag page tag : keeps_format (page_tag page tag).
Proof.
  unfold page_tag. destruct page as [p |]; [| auto with keeps].
  destruct (tag p); auto with keeps.
Qed.

#[local] Hint Resolve keeps_throwError keeps_exifRotate keeps_page_tag : keeps.

Lemma keeps_parseBitmap_switch data_ mime_ cb :
  keeps_format (parseBitmap_switch data_ mime_ cb).
Proof.
  unfold parseBitmap_switch.
  apply keeps_bind; [auto with keeps |]. intros this.
  repeat (apply keeps_if; [auto 20 with keeps |]).
  auto 20 with keeps.
Qed.

(** The encoder of the lowercased target runs and its bytes reach the
    callback. *)
Lemma getBuffer_selects_encoder
  (mime_ : string) (cb : js_value) (i final : image) (l : list cb_event)
  (bytes : buffer) :
  is_function cb = true ->
  encoder_result (toLowerCase mime_) i final bytes ->
  getBuffer (JSString mime_) cb (mkWorld i l)
  = (Normal ReturnedThis,
     mkWorld final (l ++ [mkEvent (Some final) JSNull (BufferValue bytes)])).
Proof.
  intros Hcb Henc.
  rewrite getBuffer_substituted. unfold substituted.
  cbn [strict_eq_number]. rewrite Hcb. cbn [negb].
  unfold getBuffer_switch, this_bitmap, data_of.
  destruct Henc
    as [(-> & -> & b & Hb & Hrgba & Hwrite)
       | [(-> & -> & b & flat & Hb & Hrgba & Hflat & Hwrite)
         | [(-> & -> & flat & Hflat & Hwrite)
           | [(Htoken & converted & flat & Hto & -> & Hflat & Hwrite)
             | (-> & -> & flat & Hflat & Hwrite)]]]].
  - cbn [String.eqb Ascii.eqb Bool.eqb constants.MIME_PNG]. run_js.
    rewrite Hb. cbn [self log]. rewrite Hrgba. cbn [self log].
    rewrite Hwrite, Hcb. reflexivity.
  - cbn [String.eqb Ascii.eqb Bool.eqb constants.MIME_PNG]. run_js.
    rewrite Hb. cbn [self log]. rewrite Hrgba. cbn [self log].
    rewrite Hflat. cbn [self log]. rewrite Hwrite, Hcb. reflexivity.
  - change ((constants.MIME_JPEG =? constants.MIME_PNG)%string) with false.
    change ((constants.MIME_JPEG =? constants.MIME_JPEG)%string) with true.
    run_js. rewrite Hflat, Hwrite, Hcb. reflexivity.
  - assert (Hcase :
              ((toLowerCase mime_ =? constants.MIME_PNG)%string = false
               /\ (toLowerCase mime_ =? constants.MIME_JPEG)%string = false
               /\ ((toLowerCase mime_ =? constants.MIME_BMP)%string
                   || (toLowerCase mime_ =? constants.MIME_X_MS_BMP)%string)
                  = true)).
    { destruct Htoken as [-> | ->]; repeat split. }
    destruct Hcase as (-> & -> & ->).
    run_js. rewrite Hto. cbn [self log]. rewrite Hflat, Hwrite, Hcb.
    reflexivity.
  - change ((constants.MIME_TIFF =? constants.MIME_PNG)%string) with false.
    change ((constants.MIME_TIFF =? constants.MIME_JPEG)%string) with false.
    change ((constants.MIME_TIFF =? constants.MIME_BMP)%string) with false.
    change ((constants.MIME_TIFF =? constants.MIME_X_MS_BMP)%string) with false.
    change ((constants.MIME_TIFF =? constants.MIME_TIFF)%string) with true.
    cbn [orb]. run_js. rewrite Hflat. cbn [self log].
    rewrite Hwrite, Hcb. reflexivity.
Qed.

(** C10.  [getBuffer] dispatches on the lowercased target: a target that
    lowercases to a token with an encoder gives exactly the call made with
    the lowercased token, and the encoder that runs is the one of the
    lowercased token, whose bytes the callback receives (so "IMAGE/PNG"
    selects the PNG encoder, "Image/Jpeg" the JPEG one, and so on for BMP
    and TIFF).  And [parseBitmap] records the sniffed format lowercased:
    whenever a format is sniffed, the image ends the call with
    [_originalMime] equal to the lowercased format, on which lowercasing
    changes nothing. *)
Theorem format_matching_ignores_letter_case :
  (forall (mime_ : string) (cb : js_value) (w : world),
      has_encoder mime_ = true ->
      getBuffer (JSString mime_) cb w
      = getBuffer (JSString (toLowerCase mime_)) cb w)
  /\ (forall (data_ : buffer) (path cb : js_value) (w : world) (mime_ : string),
         getMIMEFromBuffer data_ path = JSString mime_ ->
         _originalMime (self (snd (parseBitmap data_ path cb w)))
         = JSString (toLowerCase mime_)
         /\ toLowerCase (toLowerCase mime_) = toLowerCase mime_)
  /\ (forall (mime_ : string) (cb : js_value) (i final : image)
             (l : list cb_event) (bytes : buffer),
         is_function cb = true ->
         encoder_result (toLowerCase mime_) i final bytes ->
         getBuffer (JSString mime_) cb (mkWorld i l)
         = (Normal ReturnedThis,
            mkWorld final
              (l ++ [mkEvent (Some final) JSNull (BufferValue bytes)]))).
Proof.
  split; [| split].
  - intros mime_ cb w Henc.
    rewrite !getBuffer_substituted. unfold substituted.
    cbn [strict_eq_number].
    destruct (negb (is_function cb)); [reflexivity |].
    unfold bind, getBuffer_switch. rewrite toLowerCase_idempotent.
    unfold has_encoder, encoder_tokens in Henc. cbn [existsb] in Henc.
    destruct (toLowerCase mime_ =? constants.MIME_PNG)%string; [reflexivity |].
    destruct (toLowerCase mime_ =? constants.MIME_JPEG)%string; [reflexivity |].
    destruct (toLowerCase mime_ =? constants.MIME_BMP)%string; [reflexivity |].
    destruct (toLowerCase mime_ =? constants.MIME_X_MS_BMP)%string;
      [reflexivity |].
    destruct (toLowerCase mime_ =? constants.MIME_TIFF)%string; [reflexivity |].
    discriminate.
  - intros data_ path cb w mime_ Hmime.
    split; [| apply toLowerCase_idempotent].
    unfold parseBitmap. rewrite Hmime.
    set (rest := bind (try_catch _ _) _).
    assert (Hrest : keeps_format rest).
    { subst rest. apply keeps_bind.
      - apply keeps_try_catch; [apply keeps_parseBitmap_switch |].
        auto 10 with keeps.
      - intros [v |]; auto 10 with keeps. }
    unfold bind at 1. unfold modify_this. rewrite Hrest. reflexivity.
  - intros mime_ cb i final l bytes. apply getBuffer_selects_encoder.
Qed.

End LetterCase.

(* ===================================================================== *)
(** ** The calls on the sample environment *)
(* ===================================================================== *)

Section Runs.

Import Sample.

#[local] Existing Instance env.

Example toLowerCase_mixed_case :
  toLowerCase "Image/X-MS-BMP" = constants.MIME_X_MS_BMP.
Proof. reflexivity. Qed.

(** A complete PNG of one pixel decodes to that pixel, with one success
    invocation. *)
Example parseBitmap_png_pixel :
  run (parseBitmap (png_signature ++ [xff; x00; x00; x80])%list JSUndefined
                   callback) fresh
  = (Normal ReturnedThis, mkWorld red_pixel [success_event red_pixel]).
Proof. reflexivity. Qed.

(** A JPEG of two pixels whose APP1 segment says orientation 6: the sample
    [rotate] swaps the dimensions. *)
Example parseBitmap_jpeg_orientation_6 :
  option_map (fun b => (width b, height b))
    (bitmap (self (snd (run (parseBitmap
                               [xff; xd8; xff; xe1; x06; x00; x00; x00;
                                x00; x00; x00]
                               JSUndefined callback) fresh))))
  = Some (JSNumber 1, JSNumber 2).
Proof. reflexivity. Qed.

(** Unknown bytes with a numeric path: the message carries the path. *)
Example parseBitmap_unknown_format_message :
  map cb_error
      (log (snd (run (parseBitmap unknown_bytes (JSNumber (-12)) callback)
                     fresh)))
  = [JSError "Error" "Could not find MIME for Buffer <-12>"].
Proof. reflexivity. Qed.

(** A PNG signature with nothing after it: the decoder throws and the
    callback is invoked twice. *)
Lemma parseBitmap_decode_throw_calls_back_twice_witness :
  parseBitmap png_signature JSUndefined callback (mkWorld fresh [])
  = (Normal ReturnedThis,
     mkWorld (recorded "image/png" fresh)
       ([] ++ [failure_event (recorded "image/png" fresh)
                 (JSError "Error" "unexpected end of input");
               success_event (recorded "image/png" fresh)])).
Proof.
  apply (parseBitmap_decode_throw_calls_back_twice
           png_signature JSUndefined callback fresh [] "image/png"
           (JSError "Error" "unexpected end of input")).
  - reflexivity.
  - left. split; reflexivity.
  - reflexivity.
Defined.

(** A BMP signature with nothing after it: one success invocation, no
    bitmap. *)
Lemma parseBitmap_bmp_decode_failure_swallowed_witness :
  parseBitmap bmp_signature JSUndefined callback (mkWorld fresh [])
  = (Normal ReturnedThis,
     mkWorld (recorded "image/bmp" fresh)
             ([] ++ [success_event (recorded "image/bmp" fresh)]))
  /\ bitmap (recorded "image/bmp" fresh) = bitmap fresh
  /\ (bitmap fresh = None ->
      bitmap (self (snd (parseBitmap bmp_signature JSUndefined callback
                                     (mkWorld fresh [])))) = None).
Proof.
  apply (parseBitmap_bmp_decode_failure_swallowed
           bmp_signature JSUndefined callback fresh [] "image/bmp"
           (JSError "Error" "unexpected end of input")).
  - reflexivity.
  - left. reflexivity.
  - reflexivity.
  - reflexivity.
Defined.

(** A JPEG without an APP1 segment: the metadata parse throws and the
    decode succeeds all the same. *)
Lemma parseBitmap_jpeg_exif_failure_swallowed_witness :
  exists final : image,
    parseBitmap jpeg_without_exif JSUndefined callback (mkWorld fresh [])
    = (Normal ReturnedThis, mkWorld final ([] ++ [success_event final]))
    /\ (forall e, EXIFParser_parse jpeg_without_exif = Throw e ->
          final = set_bitmap (Some (pixels_of [xe0; x10; x20; x30]))
                             (recorded "image/jpeg" fresh))
    /\ (forall parsed, EXIFParser_parse jpeg_without_exif = Normal parsed ->
          final = self (snd (exifRotate
                    (mkWorld (set_exif (Some parsed)
                                (set_bitmap (Some (pixels_of [xe0; x10; x20; x30]))
                                            (recorded "image/jpeg" fresh)))
                             [])))).
Proof.
  apply (parseBitmap_jpeg_exif_failure_swallowed
           jpeg_without_exif JSUndefined callback fresh [] "image/jpeg"
           (pixels_of [xe0; x10; x20; x30]));
    reflexivity.
Defined.

(** PNG bytes under a [.jpg] name are PNG; unknown bytes under a [.jpg]
    name are what the name says; unknown bytes with no name fail. *)
Lemma format_sniffing_order_witness :
  getMIMEFromBuffer png_signature (JSString "photo.jpg") = JSString "image/png"
  /\ getMIMEFromBuffer unknown_bytes (JSString "photo.jpg")
     = type_of_path (JSString "photo.jpg")
  /\ parseBitmap unknown_bytes JSUndefined callback (mkWorld fresh [])
     = (Normal ReturnedByCallback,
        mkWorld fresh
          ([] ++ [mkEvent None
                    (JSError "Error" "Could not find MIME for Buffer <undefined>")
                    NoValue])).
Proof.
  split; [| split].
  - apply (proj1 (format_sniffing_order png_signature (JSString "photo.jpg")
                    callback fresh [])
                 (mkFileType "png" "image/png")).
    reflexivity.
  - exact (proj1 (proj2 (format_sniffing_order unknown_bytes
                           (JSString "photo.jpg") callback fresh []))
                 eq_refl eq_refl).
  - apply (proj2 (proj2 (format_sniffing_order unknown_bytes JSUndefined
                           callback fresh []))).
    + reflexivity.
    + left. reflexivity.
    + reflexivity.
Defined.

(** The claim of C3 fails on the empty target: it is not a non-empty
    recognized string, and the call does not fail with the
    invalid-argument error but with the unsupported-format one. *)
Lemma getBuffer_empty_target_not_invalid_argument :
  recognized_target (substituted (JSString "") red_pixel) = false
  /\ ~ fails_with InvalidArgument
         (run (getBuffer (JSString "") callback) red_pixel)
  /\ run (getBuffer (JSString "") callback) red_pixel
     = (Normal ReturnedThis,
        mkWorld red_pixel
          [mkEvent (Some red_pixel) (JSString "Unsupported MIME type: ")
                   NoValue]).
Proof.
  split; [reflexivity | split; [| reflexivity]].
  intros [(e & Hthrow & _) | (a & ev & _ & Hlog & _ & Hkind)].
  - discriminate Hthrow.
  - injection Hlog as <-. discriminate Hkind.
Qed.

(** An undefined target, a missing callback, and the empty target. *)
Lemma getBuffer_target_validation_witness :
  fails_with InvalidArgument (run (getBuffer JSUndefined callback) red_pixel)
  /\ fails_with InvalidArgument
       (run (getBuffer (JSString "image/png") JSUndefined) red_pixel)
  /\ (fails_with UnsupportedFormat
        (run (getBuffer (JSString "") callback) red_pixel)
      /\ ~ fails_with InvalidArgument
             (run (getBuffer (JSString "") callback) red_pixel)).
Proof.
  split; [| split].
  - apply (proj1 (getBuffer_target_validation JSUndefined callback red_pixel)).
    vm_compute. discriminate.
  - apply (proj1 (proj2 (getBuffer_target_validation
                           (JSString "image/png") JSUndefined red_pixel)));
      reflexivity.
  - apply (proj2 (proj2 (getBuffer_target_validation
                           (JSString "") callback red_pixel)) "");
      reflexivity.
Defined.

(** The pixel was decoded from a PNG: [AUTO] encodes it as "image/png"
    does. *)
Lemma getBuffer_auto_is_recorded_format_witness :
  getBuffer (JSNumber constants.AUTO) callback (mkWorld red_pixel [])
  = getBuffer (JSString "image/png") callback (mkWorld red_pixel []).
Proof.
  exact (proj2 (getBuffer_auto_is_recorded_format (Env := env) callback
                  (mkWorld red_pixel []))
               eq_refl).
Defined.

(** Encoding the pixel to GIF. *)
Lemma getBuffer_gif_unsupported_witness :
  getBuffer (JSString "image/gif") callback (mkWorld red_pixel [])
  = (Normal ReturnedThis,
     mkWorld red_pixel
       ([] ++ [mkEvent (Some red_pixel)
                 (JSString "Unsupported MIME type: image/gif") NoValue]))
  /\ fails_with UnsupportedFormat
       (run (getBuffer (JSString "image/gif") callback) red_pixel).
Proof.
  apply (getBuffer_gif_unsupported "image/gif" callback red_pixel []);
    reflexivity.
Defined.

(** Encoding the pixel to BMP leaves its channels swapped. *)
Lemma getBuffer_bmp_converts_in_place_witness :
  self (snd (getBuffer (JSString "image/bmp") callback (mkWorld red_pixel [])))
  = set_bitmap (Some (mkBitmap [x80; x00; x00; xff] (JSNumber 1) (JSNumber 1)))
               red_pixel.
Proof.
  exact (proj1 (getBuffer_bmp_converts_in_place
                  "image/bmp" callback red_pixel []
                  (or_introl eq_refl) eq_refl)).
Defined.

(** "IMAGE/PNG" is encoded as "image/png" is, a sniffed PNG is recorded as
    "image/png", and "IMAGE/PNG" gets the bytes of the PNG encoder. *)
Lemma format_matching_ignores_letter_case_witness :
  getBuffer (JSString "IMAGE/PNG") callback (mkWorld red_pixel [])
  = getBuffer (JSString "image/png") callback (mkWorld red_pixel [])
  /\ _originalMime
       (self (snd (parseBitmap png_signature JSUndefined callback
                               (mkWorld fresh []))))
     = JSString "image/png"
  /\ getBuffer (JSString "IMAGE/PNG") callback (mkWorld red_pixel [])
     = (Normal ReturnedThis,
        mkWorld red_pixel
          ([] ++ [mkEvent (Some red_pixel) JSNull
                    (BufferValue [x89; x50; x4e; x47; xff; x00; x00; x80])])).
Proof.
  split; [| split].
  - apply (proj1 (format_matching_ignores_letter_case (Env := env))
                 "IMAGE/PNG" callback (mkWorld red_pixel [])).
    reflexivity.
  - apply (proj1 (proj1 (proj2 (format_matching_ignores_letter_case
                                  (Env := env)))
                        png_signature JSUndefined callback
                        (mkWorld fresh []) "image/png" eq_refl)).
  - apply (proj2 (proj2 (format_matching_ignores_letter_case (Env := env)))
                 "IMAGE/PNG" callback red_pixel red_pixel []
                 [x89; x50; x4e; x47; xff; x00; x00; x80]).
    + reflexivity.
    + left. split; [reflexivity | split; [reflexivity |]].
      exists (mkBitmap [xff; x00; x00; x80] (JSNumber 1) (JSNumber 1)).
      repeat split.
Defined.

End Runs.

(* ===================================================================== *)
(** ** What a call leaves alone *)
(* ===================================================================== *)

Section Frames.

Context `{Env : Environment}.

Create HintDb quiet discriminated.
Create HintDb frame discriminated.

(** *** The log *)

Lemma quiet_ret {A} (a : A) : keeps_log (ret a).
Proof. intros w. reflexivity. Qed.

Lemma quiet_throw {A} (e : js_value) : keeps_log (@throw A e).
Proof. intros w. reflexivity. Qed.

Lemma quiet_lift {A} (c : completion A) : keeps_log (lift c).
Proof. intros w. reflexivity. Qed.

Lemma quiet_get_this : keeps_log get_this.
Proof. intros w. reflexivity. Qed.

Lemma quiet_modify_this (f : image -> image) : keeps_log (modify_this f).
Proof. intros w. reflexivity. Qed.

Lemma quiet_call_method (f : image_method) : keeps_log (call_method f).
Proof. intros w. apply call_method_log. Qed.

Lemma quiet_bind {A B} (m : M A) (k : A -> M B) :
  keeps_log m -> (forall a, keeps_log (k a)) -> keeps_log (bind m k).
Proof.
  intros Hm Hk w. unfold bind. specialize (Hm w).
  destruct (m w) as [[a | e] w']; cbn [snd] in *.
  - now rewrite Hk.
  - exact Hm.
Qed.

Lemma quiet_try_catch {A} (m : M A) (h : js_value -> M A) :
  keeps_log m -> (forall e, keeps_log (h e)) -> keeps_log (try_catch m h).
Proof.
  intros Hm Hh w. unfold try_catch. specialize (Hm w).
  destruct (m w) as [[a | e] w']; cbn [snd] in *.
  - exact Hm.
  - now rewrite Hh.
Qed.

Lemma quiet_if {A} (c : bool) (m1 m2 : M A) :
  keeps_log m1 -> keeps_log m2 -> keeps_log (if c then m1 else m2).
Proof. now destruct c. Qed.

Lemma quiet_exifRotate : keeps_log exifRotate.
Proof. intros w. apply exifRotate_log. Qed.

Lemma quiet_page_tag page tag : keeps_log (page_tag page tag).
Proof.
  unfold page_tag. destruct page as [p |]; [| apply quiet_throw].
  destruct (tag p); [apply quiet_ret | apply quiet_throw].
Qed.

Lemma quiet_this_bitmap : keeps_log this_bitmap.
Proof.
  unfold this_bitmap. apply quiet_bind; [apply quiet_get_this |].
  intros this. destruct (bitmap this); [apply quiet_ret | apply quiet_throw].
Qed.

Lemma quiet_data_of b : keeps_log (data_of b).
Proof. destruct b; [apply quiet_ret | apply quiet_throw]. Qed.

#[local] Hint Resolve quiet_ret quiet_throw quiet_lift quiet_get_this
  quiet_modify_this quiet_call_method quiet_bind quiet_try_catch quiet_if
  quiet_exifRotate quiet_page_tag quiet_this_bitmap quiet_data_of : quiet.

Lemma break_ret : quiet_break (ret None).
Proof. intros w. split; [reflexivity | left; reflexivity]. Qed.

Lemma break_bind {A} (m : M A) (k : A -> M (option returned)) :
  keeps_log m -> (forall a, quiet_break (k a)) -> quiet_break (bind m k).
Proof.
  intros Hm Hk w. unfold bind. specialize (Hm w).
  destruct (m w) as [[a | e] w']; cbn [fst snd] in *.
  - destruct (Hk a w') as [Hlog Hres]. split; [congruence | exact Hres].
  - split; [exact Hm | right; now exists e].
Qed.

#[local] Hint Resolve break_ret break_bind : quiet.

(** Walks down a computation built from the combinators above. *)
Ltac walk_quiet :=
  repeat (intros;
          first [ apply break_ret | apply break_bind
                | apply quiet_ret | apply quiet_throw | apply quiet_lift
                | apply quiet_get_this | apply quiet_modify_this
                | apply quiet_call_method | apply quiet_exifRotate
                | apply quiet_page_tag | apply quiet_this_bitmap
                | apply quiet_data_of
                | apply quiet_bind | apply quiet_try_catch | apply quiet_if ]).

(** *** The image *)

Section Field.

Context {X : Type} (f : image -> X).

Lemma field_ret {A} (a : A) : keeps_field f (ret a).
Proof. intros w. reflexivity. Qed.

Lemma field_throw {A} (e : js_value) : keeps_field f (@throw A e).
Proof. intros w. reflexivity. Qed.

Lemma field_lift {A} (c : completion A) : keeps_field f (lift c).
Proof. intros w. reflexivity. Qed.

Lemma field_get_this : keeps_field f get_this.
Proof. intros w. reflexivity. Qed.

Lemma field_call_cb cb receiver error value :
  keeps_field f (call_cb cb receiver error value).
Proof. intros w. unfold call_cb. now destruct (is_function cb). Qed.

Lemma field_bind {A B} (m : M A) (k : A -> M B) :
  keeps_field f m -> (forall a, keeps_field f (k a)) ->
  keeps_field f (bind m k).
Proof.
  intros Hm Hk w. unfold bind. specialize (Hm w).
  destruct (m w) as [[a | e] w']; cbn [snd] in *.
  - now rewrite Hk.
  - exact Hm.
Qed.

Lemma field_try_catch {A} (m : M A) (h : js_value -> M A) :
  keeps_field f m -> (forall e, keeps_field f (h e)) ->
  keeps_field f (try_catch m h).
Proof.
  intros Hm Hh w. unfold try_catch. specialize (Hm w).
  destruct (m w) as [[a | e] w']; cbn [snd] in *.
  - exact Hm.
  - now rewrite Hh.
Qed.

Lemma field_if {A} (c : bool) (m1 m2 : M A) :
  keeps_field f m1 -> keeps_field f m2 ->
  keeps_field f (if c then m1 else m2).
Proof. now destruct c. Qed.

Lemma field_this_bitmap : keeps_field f this_bitmap.
Proof.
  unfold this_bitmap. apply field_bind; [apply field_get_this |].
  intros this. destruct (bitmap this); [apply field_ret | apply field_throw].
Qed.

Lemma field_data_of b : keeps_field f (data_of b).
Proof. destruct b; [apply field_ret | apply field_throw]. Qed.

Lemma field_page_tag page tag : keeps_field f (page_tag page tag).
Proof.
  unfold page_tag. destruct page as [p |]; [| apply field_throw].
  destruct (tag p); [apply field_ret | apply field_throw].
Qed.

Lemma field_throwError message cb : keeps_field f (throwError message cb).
Proof.
  unfold throwError. apply field_if; [| apply field_throw].
  apply field_bind; [apply field_get_this |]. intros this.
  apply field_bind; [apply field_call_cb |]. intros _. apply field_ret.
Qed.

(** For an observation that does not look at the bitmap. *)
Hypothesis f_set_bitmap : forall b i, f (set_bitmap b i) = f i.

Lemma field_set_bitmap b : keeps_field f (modify_this (set_bitmap b)).
Proof. intros w. apply f_set_bitmap. Qed.

Lemma field_call_method (g : image_method) : keeps_field f (call_method g).
Proof.
  intros w. unfold call_method. destruct (g (self w)). apply f_set_bitmap.
Qed.

Lemma field_exifRotate : keeps_field f exifRotate.
Proof.
  unfold exifRotate. apply field_bind; [apply field_get_this |].
  intros img. destruct (_exif img) as [[[t |]] |]; try apply field_ret.
  cbn [tags]. apply field_if; [| apply field_ret].
  unfold exifRotate_switch.
  repeat first [ apply field_if | apply field_ret | apply field_call_method
               | apply field_bind; [| intros ] ].
Qed.

End Field.

(** Walks down a computation that has no write to the image in it. *)
Ltac walk_field :=
  repeat (intros;
          first [ apply field_ret | apply field_throw | apply field_lift
                | apply field_get_this | apply field_call_cb
                | apply field_this_bitmap | apply field_data_of
                | apply field_page_tag | apply field_throwError
                | apply field_bind | apply field_try_catch | apply field_if ]).

(** X4.  Only a BMP target makes [getBuffer] change the image: whatever
    the target (a string that does not lowercase to "image/bmp" or
    "image/x-ms-bmp", or no string at all), the callback and the outcome,
    the image is after the call what it was before. *)
Theorem getBuffer_only_bmp_mutates (mime_ cb : js_value) (w : world) :
  (forall s, substituted mime_ (self w) = JSString s ->
             toLowerCase s <> constants.MIME_BMP
             /\ toLowerCase s <> constants.MIME_X_MS_BMP) ->
  self (snd (getBuffer mime_ cb w)) = self w.
Proof.
  intros Hbmp. rewrite getBuffer_substituted.
  destruct (substituted mime_ (self w)) as [| | b | z | s | src | n m];
    try apply (field_throwError (fun i => i) "mime must be a string" cb w).
  destruct (Hbmp s eq_refl) as [Hnot1 Hnot2].
  apply String.eqb_neq in Hnot1, Hnot2.
  destruct (negb (is_function cb));
    [apply (field_throwError (fun i => i) "cb must be a function" cb w) |].
  clear Hbmp. revert w. change (keeps_field (fun i => i)
                           (getBuffer_switch s cb ;; ret ReturnedThis)).
  apply field_bind; [| walk_field].
  unfold getBuffer_switch. rewrite Hnot1, Hnot2. cbn [orb].
  repeat apply field_if; walk_field.
  destruct a0 as [c |]; walk_field.
Qed.

(** X5.  Without a function as callback [getBuffer] does nothing but
    throw: "cb must be a function" for a string target, "mime must be a
    string" otherwise.  No encoder runs and the image is untouched, also
    for a BMP target. *)
Theorem getBuffer_without_callback (mime_ cb : js_value) (w : world) :
  is_function cb = false ->
  getBuffer mime_ cb w
  = (Throw (JSError "Error"
              (if (typeof (substituted mime_ (self w)) =? "string")%string
               then "cb must be a function"
               else "mime must be a string")),
     w).
Proof.
  intros Hcb. rewrite getBuffer_substituted.
  destruct (substituted mime_ (self w));
    cbn [typeof String.eqb]; unfold throwError; rewrite Hcb; reflexivity.
Qed.

(** X6.  Encoding an image that has no bitmap to PNG, JPEG or TIFF throws
    a TypeError; the callback is not invoked and the image is unchanged. *)
Theorem getBuffer_unset_bitmap_throws
  (mime_ : string) (cb : js_value) (i : image) (l : list cb_event) :
  bitmap i = None ->
  toLowerCase mime_ = constants.MIME_PNG
  \/ toLowerCase mime_ = constants.MIME_JPEG
  \/ toLowerCase mime_ = constants.MIME_TIFF ->
  is_function cb = true ->
  getBuffer (JSString mime_) cb (mkWorld i l)
  = (Throw TypeError_undefined, mkWorld i l).
Proof.
  intros Hnone Htarget Hcb. rewrite getBuffer_substituted.
  unfold substituted. cbn [strict_eq_number]. rewrite Hcb. cbn [negb].
  unfold getBuffer_switch, compositeBitmapOverBackground, this_bitmap.
  destruct Htarget as [-> | [-> | ->]]; cbn; run_js; rewrite Hnone;
    reflexivity.
Qed.

(** *** Metadata *)

Lemma field_bind_at {X A B} (f : image -> X) (m : M A) (k : A -> M B)
      (w : world) :
  f (self (snd (m w))) = f (self w) ->
  (forall a, keeps_field f (k a)) ->
  f (self (snd (bind m k w))) = f (self w).
Proof.
  intros Hm Hk. unfold bind.
  destruct (m w) as [[a | e] w']; cbn [snd] in *.
  - now rewrite Hk.
  - exact Hm.
Qed.

Lemma field_try_catch_at {X A} (f : image -> X) (m : M A)
      (h : js_value -> M A) (w : world) :
  f (self (snd (m w))) = f (self w) ->
  (forall e, keeps_field f (h e)) ->
  f (self (snd (try_catch m h w))) = f (self w).
Proof.
  intros Hm Hh. unfold try_catch.
  destruct (m w) as [[a | e] w']; cbn [snd] in *.
  - exact Hm.
  - now rewrite Hh.
Qed.

(** Walks down a computation whose only writes are to the bitmap. *)
Ltac walk_bitmap :=
  repeat (intros;
          first [ apply field_ret | apply field_throw | apply field_lift
                | apply field_get_this | apply field_call_cb
                | apply field_this_bitmap | apply field_data_of
                | apply field_page_tag | apply field_throwError
                | apply field_set_bitmap; [intros; reflexivity]
                | apply field_call_method; [intros; reflexivity]
                | apply field_exifRotate; [intros; reflexivity]
                | apply field_bind | apply field_try_catch | apply field_if ]).

(** One case of the switch of [parseBitmap] that writes the bitmap only. *)
Ltac bitmap_case token Hr :=
  match type of Hr with
  | context [strict_eq_string ?v token] =>
      destruct (strict_eq_string v token) eqn:?; cbn [orb] in Hr;
      cbv beta iota in Hr;
      [rewrite Hr; apply (field_bind _exif); walk_bitmap |]
  end.

Lemma parseBitmap_switch_exif (data_ : buffer) (mime_ : string)
      (cb : js_value) (w : world) :
  (strict_eq_string (getMIME (self w)) constants.MIME_JPEG = true ->
   (exists e, JPEG_decode data_ = Throw e)
   \/ (exists e, EXIFParser_parse data_ = Throw e)) ->
  _exif (self (snd (parseBitmap_switch data_ mime_ cb w))) = _exif (self w).
Proof.
  intros Hjpeg.
  remember (parseBitmap_switch data_ mime_ cb w) as r eqn:Hr.
  unfold parseBitmap_switch in Hr.
  unfold bind at 1 in Hr. unfold get_this at 1 in Hr. cbv beta iota in Hr.
  bitmap_case constants.MIME_PNG Hr.
  destruct (strict_eq_string (getMIME (self w)) constants.MIME_JPEG).
  { subst r. unfold bind, lift, try_catch, modify_this, ret.
    destruct (Hjpeg eq_refl) as [[e He] | [e He]]; rewrite He.
    - reflexivity.
    - now destruct (JPEG_decode data_). }
  bitmap_case constants.MIME_TIFF Hr.
  bitmap_case constants.MIME_BMP Hr.
  bitmap_case constants.MIME_X_MS_BMP Hr.
  bitmap_case constants.MIME_GIF Hr.
  rewrite Hr. apply (field_bind _exif); walk_bitmap.
Qed.

(** X7.  [parseBitmap] writes the EXIF metadata of the image only on the
    JPEG path, after a successful decode and a successful metadata parse.
    For every other format, for an unknown format, and for a JPEG whose
    decode or metadata parse throws, [_exif] is after the call what it was
    before: metadata of an earlier decode stays on the image. *)
Theorem parseBitmap_exif_only_from_jpeg
  (data_ : buffer) (path cb : js_value) (i : image) (l : list cb_event) :
  (forall mime_, getMIMEFromBuffer data_ path = JSString mime_ ->
     strict_eq_string (getMIME (recorded mime_ i)) constants.MIME_JPEG = true ->
     (exists e, JPEG_decode data_ = Throw e)
     \/ (exists e, EXIFParser_parse data_ = Throw e)) ->
  _exif (self (snd (parseBitmap data_ path cb (mkWorld i l)))) = _exif i.
Proof.
  intros Hjpeg. unfold parseBitmap.
  destruct (getMIMEFromBuffer data_ path) as [| | b | z | mime_ | src | n m];
    try (apply (field_bind _exif _ _ (field_call_cb _ _ _ _ _)
                  (fun _ => field_ret _ _) (mkWorld i l))).
  unfold bind at 1. unfold modify_this at 1. cbn [self log].
  fold (recorded mime_ i).
  change (_exif i) with (_exif (self (mkWorld (recorded mime_ i) l))).
  apply field_bind_at.
  - apply field_try_catch_at; [| walk_bitmap].
    apply parseBitmap_switch_exif. apply (Hjpeg mime_ eq_refl).
  - intros [v |]; walk_bitmap.
Qed.

(** *** Successful decodes *)

Lemma parseBitmap_decode_run
  (data_ : buffer) (path cb : js_value) (i : image) (l : list cb_event)
  (mime_ : string) (b : Bitmap) :
  getMIMEFromBuffer data_ path = JSString mime_ ->
  decodes_to data_ (getMIME (recorded mime_ i)) b ->
  is_function cb = true ->
  parseBitmap data_ path cb (mkWorld i l)
  = (Normal ReturnedThis,
     mkWorld (set_bitmap (Some b) (recorded mime_ i))
             (l ++ [success_event (set_bitmap (Some b) (recorded mime_ i))])).
Proof.
  intros Hmime Hdec Hcb.
  unfold parseBitmap. rewrite Hmime.
  unfold parseBitmap_switch. run_js. fold (recorded mime_ i).
  destruct Hdec as [[Hget Hb] | [Hget Hb]];
    rewrite Hget; cbn; rewrite Hb; cbn; rewrite Hcb;
    destruct b; reflexivity.
Qed.

(** X8.  When the buffer is identified as PNG or GIF and the decoder
    returns a bitmap, [parseBitmap] stores exactly that bitmap (data, width
    and height) on the image and invokes the callback once, with a null
    error and the image. *)
Theorem parseBitmap_decode_success
  (data_ : buffer) (path cb : js_value) (i : image) (l : list cb_event)
  (mime_ : string) (b : Bitmap) :
  getMIMEFromBuffer data_ path = JSString mime_ ->
  decodes_to data_ (getMIME (recorded mime_ i)) b ->
  is_function cb = true ->
  parseBitmap data_ path cb (mkWorld i l)
  = (Normal ReturnedThis,
     mkWorld (set_bitmap (Some b) (recorded mime_ i))
             (l ++ [success_event (set_bitmap (Some b) (recorded mime_ i))])).
Proof. apply parseBitmap_decode_run. Qed.

Lemma parseBitmap_bmp_run
  (data_ : buffer) (path cb : js_value) (i : image) (l : list cb_event)
  (mime_ : string) (decoded : Bitmap) :
  getMIMEFromBuffer data_ path = JSString mime_ ->
  getMIME (recorded mime_ i) = JSString constants.MIME_BMP
  \/ getMIME (recorded mime_ i) = JSString constants.MIME_X_MS_BMP ->
  BMP_decode data_ = Normal decoded ->
  is_function cb = true ->
  parseBitmap data_ path cb (mkWorld i l)
  = (Normal ReturnedThis,
     mkWorld
       (set_bitmap (snd (fromAGBR (set_bitmap (Some decoded) (recorded mime_ i))))
                   (recorded mime_ i))
       (l ++ [success_event
                (set_bitmap
                   (snd (fromAGBR (set_bitmap (Some decoded) (recorded mime_ i))))
                   (recorded mime_ i))])).
Proof.
  intros Hmime Hget Hdec Hcb.
  unfold parseBitmap. rewrite Hmime.
  unfold parseBitmap_switch. run_js. fold (recorded mime_ i).
  destruct Hget as [Hget | Hget]; rewrite Hget; cbn; rewrite Hdec; cbn;
    destruct (fromAGBR (set_bitmap (Some decoded) (recorded mime_ i)))
      as [[[] | e] b]; cbn; rewrite Hcb; reflexivity.
Qed.

(** X9.  When the buffer is identified as BMP and [BMP.decode] returns a
    bitmap, the image ends with the bitmap [fromAGBR] left of it, and the
    callback is invoked once with a null error, also when [fromAGBR]
    throws. *)
Theorem parseBitmap_bmp_success
  (data_ : buffer) (path cb : js_value) (i : image) (l : list cb_event)
  (mime_ : string) (decoded : Bitmap) :
  getMIMEFromBuffer data_ path = JSString mime_ ->
  getMIME (recorded mime_ i) = JSString constants.MIME_BMP
  \/ getMIME (recorded mime_ i) = JSString constants.MIME_X_MS_BMP ->
  BMP_decode data_ = Normal decoded ->
  is_function cb = true ->
  let final :=
    set_bitmap (snd (fromAGBR (set_bitmap (Some decoded) (recorded mime_ i))))
               (recorded mime_ i) in
  parseBitmap data_ path cb (mkWorld i l)
  = (Normal ReturnedThis, mkWorld final (l ++ [success_event final])).
Proof. intros. now apply parseBitmap_bmp_run. Qed.


(** X12.  [getBitmapFromGIF] decodes frame 0 only, into a zero-filled
    buffer of exactly width * height * 4 bytes, and reports the
    dimensions of the reader; it returns only if that size is within what
    [Buffer.alloc] accepts. *)
Theorem getBitmapFromGIF_first_frame (data_ : buffer) (b : Bitmap) :
  getBitmapFromGIF data_ = Normal b ->
  exists gifObj,
    GIF_GifReader data_ = Normal gifObj
    /\ 0 <= gif_width gifObj * gif_height gifObj * 4 <= kMaxLength
    /\ decodeAndBlitFrameRGBA gifObj 0
         (repeat x00 (Z.to_nat (gif_width gifObj * gif_height gifObj * 4)))
       = Normal (data b)
    /\ width b = JSNumber (gif_width gifObj)
    /\ height b = JSNumber (gif_height gifObj).
Proof.
  unfold getBitmapFromGIF, Buffer_alloc. intros Hgif.
  destruct (GIF_GifReader data_) as [gifObj | e]; [| discriminate].
  exists gifObj. split; [reflexivity |].
  destruct (gif_width gifObj * gif_height gifObj * 4 <? 0) eqn:Hneg;
    [discriminate |].
  destruct (kMaxLength <? gif_width gifObj * gif_height gifObj * 4) eqn:Hmax;
    [discriminate |].
  cbn [orb] in Hgif.
  destruct (decodeAndBlitFrameRGBA gifObj 0 _) as [pixels | e];
    [| discriminate].
  injection Hgif as <-. cbn [data width height].
  apply Z.ltb_ge in Hneg, Hmax. repeat split; assumption.
Qed.

(** X13.  [exifRotate] compares the orientation with the numbers 1 to 8 by
    strict equality: an orientation that is not a number (the string "6",
    say) leaves the image as it is. *)
Theorem exifRotate_ignores_non_numbers
  (o : js_value) (i : image) (l : list cb_event) :
  (forall z, o <> JSNumber z) ->
  exifRotate (mkWorld (with_orientation o i) l)
  = (Normal tt, mkWorld (with_orientation o i) l).
Proof.
  intros Hnum. unfold exifRotate, exifRotate_switch, with_orientation.
  unfold bind, get_this, ret. cbn [self _exif set_exif tags Orientation].
  destruct o; try reflexivity; try (now destruct (truthy _)).
  now destruct (Hnum z).
Qed.

(** *** Decoding, then encoding *)

(** [getBuffer(AUTO, cb)] on an image whose format has no encoder. *)
Lemma getBuffer_auto_default (s : string) (cb : js_value) (i : image)
      (l : list cb_event) :
  getMIME i = JSString s ->
  has_encoder s = false ->
  is_function cb = true ->
  getBuffer (JSNumber constants.AUTO) cb (mkWorld i l)
  = (Normal ReturnedThis,
     mkWorld i (l ++ [mkEvent (Some i)
                        (JSString ("Unsupported MIME type: " ++ s)) NoValue])).
Proof.
  intros Hget Henc Hcb.
  rewrite <- (getBuffer_default s cb i l Henc Hcb).
  rewrite !getBuffer_substituted. unfold substituted. cbn. now rewrite Hget.
Qed.

(** X15.  A decoded GIF cannot be written back in its own format: after
    [parseBitmap] has decoded a GIF, [getBuffer(AUTO, ...)] on the image
    (for which [getMIME] still answers "image/gif") reports "Unsupported
    MIME type: image/gif" and leaves the decoded image as it is. *)
Theorem decode_gif_then_encode_auto
  (data_ : buffer) (path cb cb' : js_value) (i : image) (l : list cb_event)
  (mime_ : string) (b : Bitmap) :
  getMIMEFromBuffer data_ path = JSString mime_ ->
  getMIME (recorded mime_ i) = JSString constants.MIME_GIF ->
  getBitmapFromGIF data_ = Normal b ->
  getMIME (set_bitmap (Some b) (recorded mime_ i))
  = JSString constants.MIME_GIF ->
  is_function cb = true ->
  is_function cb' = true ->
  let final := set_bitmap (Some b) (recorded mime_ i) in
  (parseBitmap data_ path cb ;; getBuffer (JSNumber constants.AUTO) cb')
    (mkWorld i l)
  = (Normal ReturnedThis,
     mkWorld final
       (l ++ [success_event final;
              mkEvent (Some final)
                      (JSString "Unsupported MIME type: image/gif") NoValue])).
Proof.
  intros Hmime Hget Hgif Hget' Hcb Hcb' final. subst final.
  unfold bind at 1.
  rewrite (parseBitmap_decode_run data_ path cb i l mime_ b Hmime
             (or_intror (conj Hget Hgif)) Hcb).
  rewrite (getBuffer_auto_default constants.MIME_GIF cb' _ _ Hget' eq_refl Hcb').
  now rewrite <- app_assoc.
Qed.

(** X16.  A PNG goes round unchanged: after [parseBitmap] has decoded a
    PNG into an image with alpha support, [getBuffer(AUTO, ...)] hands the
    PNG encoder the decoder's data, width and height as they are (bit depth
    8, colour type 6), without compositing, and passes the encoder's bytes
    to the callback. *)
Theorem decode_png_then_encode_auto
  (data_ : buffer) (path cb cb' : js_value) (i : image) (l : list cb_event)
  (mime_ : string) (b : Bitmap) (bytes : buffer) :
  getMIMEFromBuffer data_ path = JSString mime_ ->
  getMIME (recorded mime_ i) = JSString constants.MIME_PNG ->
  PNG_sync_read data_ = Normal b ->
  getMIME (set_bitmap (Some b) (recorded mime_ i))
  = JSString constants.MIME_PNG ->
  truthy (_rgba i) = true ->
  PNG_sync_write (mkPNG (width b) (height b) 8 (_deflateLevel i)
                        (_deflateStrategy i) (_filterType i) 6 true (data b))
  = Normal bytes ->
  is_function cb = true ->
  is_function cb' = true ->
  let final := set_bitmap (Some b) (recorded mime_ i) in
  (parseBitmap data_ path cb ;; getBuffer (JSNumber constants.AUTO) cb')
    (mkWorld i l)
  = (Normal ReturnedThis,
     mkWorld final
       (l ++ [success_event final;
              mkEvent (Some final) JSNull (BufferValue bytes)])).
Proof.
  intros Hmime Hget Hread Hget' Hrgba Hwrite Hcb Hcb' final. subst final.
  unfold bind at 1.
  rewrite (parseBitmap_decode_run data_ path cb i l mime_ b Hmime
             (or_introl (conj Hget Hread)) Hcb).
  rewrite getBuffer_substituted. unfold substituted. cbn [strict_eq_number].
  change (constants.AUTO =? constants.AUTO) with true. cbn iota.
  cbn [self]. rewrite Hget', Hcb'. cbn [negb].
  unfold getBuffer_switch, this_bitmap. run_js. cbn.
  rewrite Hrgba. cbn. rewrite Hwrite, Hcb'.
  now rewrite <- app_assoc.
Qed.

(** The image and the log after [getBuffer] on a BMP target. *)
Lemma getBuffer_bmp_run (target : string) (cb : js_value) (w : world) :
  toLowerCase target = constants.MIME_BMP ->
  is_function cb = true ->
  self (snd (getBuffer (JSString target) cb w))
  = set_bitmap (snd (toAGBR (self w))) (self w)
  /\ exists rest,
      log (snd (getBuffer (JSString target) cb w)) = (log w ++ rest)%list.
Proof.
  intros Htarget Hcb.
  unfold getBuffer, getBuffer_switch. run_js.
  cbn [strict_eq_number]. rewrite Hcb. cbn [negb]. rewrite Htarget.
  change ((constants.MIME_BMP =? constants.MIME_PNG)%string) with false.
  change ((constants.MIME_BMP =? constants.MIME_JPEG)%string) with false.
  change ((constants.MIME_BMP =? constants.MIME_BMP)%string) with true.
  cbn [orb]. cbv beta iota.
  destruct (toAGBR (self w)) as [[[] | e] b]; cbn [self log fst snd].
  - destruct (compositeBitmapOverBackground _) as [flat | e].
    + destruct (BMP_encode flat) as [bytes | e]; rewrite ?Hcb;
        cbn [self log snd]; (split; [reflexivity |]).
      * eexists; reflexivity.
      * exists []. now rewrite app_nil_r.
    + split; [reflexivity |]. exists []. now rewrite app_nil_r.
  - split; [reflexivity |]. exists []. now rewrite app_nil_r.
Qed.

(** X17.  A BMP round trip leaves the image in the decoder's channel
    order: when [toAGBR] undoes what [fromAGBR] did to the decoded bitmap,
    decoding a BMP and encoding it to "image/bmp" ends with the image
    holding the bitmap exactly as [BMP.decode] returned it, not the
    converted one the decode had left and reported to its callback. *)
Theorem decode_bmp_then_encode_bmp
  (data_ : buffer) (path cb cb' : js_value) (i : image) (l : list cb_event)
  (mime_ target : string) (decoded converted : Bitmap) :
  getMIMEFromBuffer data_ path = JSString mime_ ->
  getMIME (recorded mime_ i) = JSString constants.MIME_BMP ->
  BMP_decode data_ = Normal decoded ->
  fromAGBR (set_bitmap (Some decoded) (recorded mime_ i))
  = (Normal tt, Some converted) ->
  toAGBR (set_bitmap (Some converted) (recorded mime_ i))
  = (Normal tt, Some decoded) ->
  toLowerCase target = constants.MIME_BMP ->
  is_function cb = true ->
  is_function cb' = true ->
  let out :=
    (parseBitmap data_ path cb ;; getBuffer (JSString target) cb')
      (mkWorld i l) in
  self (snd out) = set_bitmap (Some decoded) (recorded mime_ i)
  /\ hd_error (skipn (List.length l) (log (snd out)))
     = Some (success_event (set_bitmap (Some converted) (recorded mime_ i))).
Proof.
  intros Hmime Hget Hdec Hfrom Hto Htarget Hcb Hcb' out. subst out.
  unfold bind.
  rewrite (parseBitmap_bmp_run data_ path cb i l mime_ decoded Hmime
             (or_introl Hget) Hdec Hcb).
  rewrite Hfrom. cbn [snd].
  set (img := set_bitmap (Some converted) (recorded mime_ i)) in *.
  destruct (getBuffer_bmp_run target cb'
              (mkWorld img (l ++ [success_event img])) Htarget Hcb')
    as [Himg [rest Hlog]].
  cbn [self log] in Himg, Hlog.
  rewrite Himg, Hlog. split.
  - rewrite Hto. reflexivity.
  - rewrite <- app_assoc, skipn_app, skipn_all, Nat.sub_diag. reflexivity.
Qed.

(* ===================================================================== *)
(** ** A callback that may throw *)
(* ===================================================================== *)

Section Callbacks.

Variable react : reaction.

(** With a callback that always returns, the calls are the ones above. *)
Lemma caller_parseBitmap_returns_normally data_ path cb w :
  Caller.parseBitmap returns_normally data_ path cb w
  = parseBitmap data_ path cb w.
Proof. reflexivity. Qed.

Lemma caller_getBuffer_returns_normally mime_ cb w :
  Caller.getBuffer returns_normally mime_ cb w = getBuffer mime_ cb w.
Proof. reflexivity. Qed.

(** One case of the switch of [parseBitmap]: when the test on [token]
    succeeds the case is quiet. *)
Ltac quiet_case token Hr :=
  match type of Hr with
  | context [strict_eq_string ?v token] =>
      destruct (strict_eq_string v token); cbn [orb] in Hr |- *;
      cbv beta iota in Hr;
      [left; rewrite Hr; apply (break_bind _ _); walk_quiet |]
  end.

(** Every case of the switch of [parseBitmap] but the default one breaks
    or throws without calling back; the default one, given a function,
    makes the unsupported-MIME invocation and completes as it does. *)
Lemma caller_switch_outcome (data_ : buffer) (mime_ : string)
      (cb : js_value) (w : world) :
  is_function cb = true ->
  (log (snd (Caller.parseBitmap_switch react data_ mime_ cb w)) = log w
   /\ (fst (Caller.parseBitmap_switch react data_ mime_ cb w) = Normal None
       \/ exists e,
            fst (Caller.parseBitmap_switch react data_ mime_ cb w) = Throw e))
  \/ (unsupported_format (getMIME (self w)) = true
      /\ Caller.parseBitmap_switch react data_ mime_ cb w
         = (match react (log w) (unsupported_event (self w) mime_) with
            | None => Normal (Some ReturnedByCallback)
            | Some thrown => Throw thrown
            end,
            mkWorld (self w) (log w ++ [unsupported_event (self w) mime_]))).
Proof.
  intros Hcb.
  remember (Caller.parseBitmap_switch react data_ mime_ cb w) as r eqn:Hr.
  unfold Caller.parseBitmap_switch in Hr.
  unfold bind at 1 in Hr. unfold get_this at 1 in Hr. cbv beta iota in Hr.
  unfold unsupported_format, format_tokens. cbn [existsb].
  quiet_case constants.MIME_PNG Hr.
  quiet_case constants.MIME_JPEG Hr.
  quiet_case constants.MIME_TIFF Hr.
  quiet_case constants.MIME_BMP Hr.
  quiet_case constants.MIME_X_MS_BMP Hr.
  quiet_case constants.MIME_GIF Hr.
  right. split; [reflexivity |]. subst r.
  unfold Caller.throwError. rewrite Hcb.
  unfold bind, get_this, Caller.call_cb, ret. rewrite Hcb.
  unfold unsupported_event.
  destruct (react _ _); destruct w; reflexivity.
Qed.

Lemma caller_switch_default (data_ : buffer) (mime_ : string)
      (cb : js_value) (w : world) :
  unsupported_format (getMIME (self w)) = true ->
  is_function cb = true ->
  Caller.parseBitmap_switch react data_ mime_ cb w
  = (match react (log w) (unsupported_event (self w) mime_) with
     | None => Normal (Some ReturnedByCallback)
     | Some thrown => Throw thrown
     end,
     mkWorld (self w) (log w ++ [unsupported_event (self w) mime_])).
Proof.
  intros Hun Hcb.
  unfold unsupported_format, format_tokens in Hun. cbn [existsb] in Hun.
  apply negb_true_iff in Hun.
  repeat (apply orb_false_elim in Hun; destruct Hun as [? Hun]).
  remember (Caller.parseBitmap_switch react data_ mime_ cb w) as r eqn:Hr.
  unfold Caller.parseBitmap_switch in Hr.
  unfold bind at 1 in Hr. unfold get_this at 1 in Hr. cbv beta iota in Hr.
  repeat match goal with
         | H : strict_eq_string _ _ = false |- _ => rewrite H in Hr; clear H
         end.
  cbn [orb] in Hr. subst r.
  unfold Caller.throwError. rewrite Hcb.
  unfold bind, get_this, Caller.call_cb, ret. rewrite Hcb.
  unfold unsupported_event.
  destruct (react _ _); destruct w; reflexivity.
Qed.

(** [parseBitmap] around its switch: a [return] from the switch is the
    result, a [break] leads to the success invocation, a throw to the
    [catch]. *)
Lemma caller_parseBitmap_around_switch
  (data_ : buffer) (path cb : js_value) (i : image) (l : list cb_event)
  (mime_ : string) :
  getMIMEFromBuffer data_ path = JSString mime_ ->
  is_function cb = true ->
  Caller.parseBitmap react data_ path cb (mkWorld i l)
  = match Caller.parseBitmap_switch react data_ mime_ cb
            (mkWorld (recorded mime_ i) l) with
    | (Normal (Some v), w') => (Normal v, w')
    | (Normal None, w') => succeed react (self w') (log w')
    | (Throw e, w') => after_catch react (self w') (log w') e
    end.
Proof.
  intros Hmime Hcb. unfold Caller.parseBitmap. rewrite Hmime.
  unfold bind at 1. unfold modify_this at 1. cbn [self log].
  fold (recorded mime_ i).
  unfold bind at 1. unfold try_catch.
  destruct (Caller.parseBitmap_switch react data_ mime_ cb _)
    as [[[v |] | e] [i' l']]; cbn [self log].
  - reflexivity.
  - unfold bind, get_this, Caller.call_cb, ret, succeed, success_event.
    rewrite Hcb. cbn [self log]. destruct (react _ _); reflexivity.
  - unfold bind, get_this, Caller.call_cb, ret, after_catch, succeed,
      success_event, failure_event.
    rewrite Hcb. cbn [self log].
    destruct (react l' _); [reflexivity |].
    cbn [self log]. rewrite ?Hcb. cbn [self log].
    rewrite <- app_assoc. cbn [app].
    destruct (react _ _); reflexivity.
Qed.

Lemma succeed_completes (i : image) (l0 l l1 : list cb_event) :
  l1 = (l0 ++ l)%list ->
  (List.length l <= 2)%nat ->
  completes_as_last react l0 (succeed react i l1).
Proof.
  intros -> Hlen. exists l, (success_event i). unfold succeed.
  cbn [fst snd log].
  split; [now rewrite app_assoc | split; [exact Hlen |]].
  now destruct (react (l0 ++ l)%list (success_event i)).
Qed.

Lemma after_catch_completes (i : image) (l0 l l1 : list cb_event)
      (e : js_value) :
  l1 = (l0 ++ l)%list ->
  (List.length l <= 1)%nat ->
  completes_as_last react l0 (after_catch react i l1 e).
Proof.
  intros -> Hlen. unfold after_catch.
  destruct (react (l0 ++ l)%list (failure_event i e)) as [thrown |] eqn:Hfail.
  - exists l, (failure_event i e). cbn [fst snd log].
    split; [now rewrite app_assoc | split; [lia | exact Hfail]].
  - apply (succeed_completes i l0 (l ++ [failure_event i e])).
    + now rewrite app_assoc.
    + rewrite length_app. cbn [List.length]. lia.
Qed.

(** X1.  Given a function as callback, no exception of a codec escapes
    [parseBitmap]: whatever the callback does, the call makes between one
    and three callback invocations and completes as the last of them does.
    It returns if the callback returned from it, and what it throws is what
    the callback threw from it. *)
Theorem parseBitmap_completes_as_last_callback
  (data_ : buffer) (path cb : js_value) (i : image) (l : list cb_event) :
  is_function cb = true ->
  completes_as_last react l
    (Caller.parseBitmap react data_ path cb (mkWorld i l)).
Proof.
  intros Hcb.
  destruct (getMIMEFromBuffer data_ path)
    as [| | b | z | mime_ | src | n m] eqn:Hmime;
    try (unfold Caller.parseBitmap; rewrite Hmime;
         unfold bind, Caller.call_cb, ret; rewrite Hcb; cbn [self log];
         eexists [], _; cbn [app List.length];
         rewrite app_nil_r;
         match goal with
         | |- context [react l ?ev] => destruct (react l ev) eqn:Hreact
         end;
         cbn [fst snd log];
         (split; [reflexivity | split; [lia | exact Hreact]])).
  rewrite (caller_parseBitmap_around_switch _ _ _ _ _ _ Hmime Hcb).
  destruct (caller_switch_outcome data_ mime_ cb
              (mkWorld (recorded mime_ i) l) Hcb) as [[Hlog Hres] | [_ Hrun]].
  - destruct (Caller.parseBitmap_switch react data_ mime_ cb _)
      as [c [i' l']].
    cbn [fst snd log] in *. subst l'.
    destruct Hres as [-> | [e ->]].
    + apply (succeed_completes i' l []); [now rewrite app_nil_r | cbn; lia].
    + apply (after_catch_completes i' l []);
        [now rewrite app_nil_r | cbn; lia].
  - rewrite Hrun. cbn [self log].
    destruct (react l (unsupported_event (recorded mime_ i) mime_))
      as [thrown |] eqn:Hreact.
    + apply (after_catch_completes _ l
               [unsupported_event (recorded mime_ i) mime_]);
        [reflexivity | cbn; lia].
    + exists [], (unsupported_event (recorded mime_ i) mime_).
      cbn [fst snd log app List.length]. rewrite app_nil_r.
      split; [reflexivity | split; [lia | exact Hreact]].
Qed.

(** X2.  When [getMIME] answers none of the six format tokens for the
    sniffed format, [parseBitmap] runs no decoder, records the lowercased
    format all the same, and invokes the callback with the error
    "Unsupported MIME type: " followed by the format as sniffed (not
    lowercased).  If the callback returns, that is the only invocation and
    the call returns what the callback returned.  If the callback throws,
    the invocation being inside the [try], the throw is caught and the
    callback is invoked again with what it threw and, if it returns from
    that, a third time as a success. *)
Theorem parseBitmap_unsupported_format
  (data_ : buffer) (path cb : js_value) (i : image) (l : list cb_event)
  (mime_ : string) :
  getMIMEFromBuffer data_ path = JSString mime_ ->
  unsupported_format (getMIME (recorded mime_ i)) = true ->
  is_function cb = true ->
  Caller.parseBitmap react data_ path cb (mkWorld i l)
  = match react l (unsupported_event (recorded mime_ i) mime_) with
    | None =>
        (Normal ReturnedByCallback,
         mkWorld (recorded mime_ i)
                 (l ++ [unsupported_event (recorded mime_ i) mime_]))
    | Some thrown =>
        after_catch react (recorded mime_ i)
          (l ++ [unsupported_event (recorded mime_ i) mime_]) thrown
    end.
Proof.
  intros Hmime Hun Hcb.
  rewrite (caller_parseBitmap_around_switch _ _ _ _ _ _ Hmime Hcb).
  rewrite (caller_switch_default data_ mime_ cb
             (mkWorld (recorded mime_ i) l) Hun Hcb).
  cbn [self log].
  now destruct (react l (unsupported_event (recorded mime_ i) mime_)).
Qed.

(** X11.  A TIFF in which [UTIF.decode] finds no directory is a decode
    failure: [page], bound to [ifds[0]], is undefined, so that
    [UTIF.decodeImages], [UTIF.toRGBA8] or the read of [page.t256] throws.
    The bitmap is left as it was and the [catch] hands the error to the
    callback, followed by the success invocation if the callback
    returns. *)
Theorem parseBitmap_tiff_without_directory
  (data_ : buffer) (path cb : js_value) (i : image) (l : list cb_event)
  (mime_ : string) :
  getMIMEFromBuffer data_ path = JSString mime_ ->
  getMIME (recorded mime_ i) = JSString constants.MIME_TIFF ->
  UTIF_decode data_ = Normal [] ->
  is_function cb = true ->
  exists e,
    Caller.parseBitmap react data_ path cb (mkWorld i l)
    = after_catch react (recorded mime_ i) l e
    /\ (UTIF_decodeImages data_ [] = Throw e
        \/ UTIF_toRGBA8 None = Throw e
        \/ e = TypeError_undefined).
Proof.
  intros Hmime Hget Hdec Hcb.
  rewrite (caller_parseBitmap_around_switch _ _ _ _ _ _ Hmime Hcb).
  unfold Caller.parseBitmap_switch, page_tag.
  unfold bind, get_this, lift, throw. cbn [self log].
  rewrite Hget. cbn. rewrite Hdec.
  destruct (UTIF_decodeImages data_ []) as [ifds' | e] eqn:Himg.
  - destruct (UTIF_toRGBA8 None) as [rgba | e] eqn:Hrgba.
    + exists TypeError_undefined. split; [reflexivity | now right; right].
    + exists e. split; [reflexivity | now right; left].
  - exists e. split; [reflexivity | now left].
Qed.

(** *** At most one invocation *)










End Callbacks.

End Frames.

(* ===================================================================== *)
(** ** constants.js *)
(* ===================================================================== *)

Lemma append_assoc (a b c : string) : ((a ++ b) ++ c = a ++ (b ++ c))%string.
Proof. induction a as [| x a IH]; cbn; [reflexivity | now rewrite IH]. Qed.

Lemma append_injective (d a b : string) :
  (d ++ a = d ++ b)%string -> a = b.
Proof.
  induction d as [| x d IH]; cbn; intros H; [exact H |].
  injection H as H. now apply IH.
Qed.

Lemma NoDup_map_append (d : string) (l : list string) :
  NoDup l -> NoDup (map (fun file => d ++ file)%string l).
Proof.
  induction 1 as [| x l Hx Hl IH]; cbn; constructor; [| exact IH].
  rewrite in_map_iff. intros [y [Heq Hin]].
  apply append_injective in Heq. now subst y.
Qed.

(** X14.  Whatever the process, the Jimp directory ends with a slash, so
    that the font locations, which append a relative path to it, are
    well-formed; and the thirteen font locations are pairwise distinct. *)
Theorem getJimpDir_trailing_slash (p : process) :
  (exists prefix, getJimpDir p = prefix ++ "/")
  /\ NoDup (FONTS p).
Proof.
  split.
  - unfold getJimpDir.
    destruct (strict_eq_string (env_BABEL_ENV p) "test"
              && strict_eq_string (env_ENV p) "browser").
    + now exists "http://localhost:9876/base".
    + destruct (truthy (browser p)).
      * now exists "".
      * exists (__dirname p ++ "/.."). now rewrite append_assoc.
  - unfold FONTS. apply NoDup_map_append. unfold font_files.
    repeat (constructor; [cbn; intuition discriminate |]). constructor.
Qed.

(* ===================================================================== *)
(** ** More calls on the sample environments *)
(* ===================================================================== *)

Section MoreRuns.

Import Sample.

Example getJimpDir_node :
  getJimpDir node = "/app/node_modules/jimp/dist/../".
Proof. reflexivity. Qed.

Lemma parseBitmap_completes_as_last_callback_witness :
  completes_as_last throws_on_error []
    (Caller.parseBitmap (Env := env) throws_on_error png_signature
                        JSUndefined callback (mkWorld fresh [])).
Proof.
  apply (parseBitmap_completes_as_last_callback (Env := env)).
  reflexivity.
Defined.

(** A callback that throws the error it is given: the unsupported format
    is reported, caught, and reported once more before the call throws;
    a callback that returns is invoked once. *)
Lemma parseBitmap_unsupported_format_witness :
  Caller.parseBitmap (Env := env_riff) throws_on_error riff_bytes JSUndefined
                     callback (mkWorld fresh [])
  = (Throw (JSError "Error" "Unsupported MIME type: Image/WebP"),
     mkWorld (recorded "Image/WebP" fresh)
       [unsupported_event (recorded "Image/WebP" fresh) "Image/WebP";
        failure_event (recorded "Image/WebP" fresh)
          (JSError "Error" "Unsupported MIME type: Image/WebP")])
  /\ Caller.parseBitmap (Env := env_riff) returns_normally riff_bytes
                        JSUndefined callback (mkWorld fresh [])
     = (Normal ReturnedByCallback,
        mkWorld (recorded "Image/WebP" fresh)
          [unsupported_event (recorded "Image/WebP" fresh) "Image/WebP"]).
Proof.
  split.
  - apply (parseBitmap_unsupported_format (Env := env_riff) throws_on_error
             riff_bytes JSUndefined callback fresh [] "Image/WebP");
      reflexivity.
  - apply (parseBitmap_unsupported_format (Env := env_riff) returns_normally
             riff_bytes JSUndefined callback fresh [] "Image/WebP");
      reflexivity.
Defined.


Lemma parseBitmap_tiff_without_directory_witness :
  exists e,
    Caller.parseBitmap (Env := env_riff) throws_on_error tiff_pixel
                       JSUndefined callback (mkWorld fresh [])
    = after_catch throws_on_error (recorded "image/tiff" fresh) [] e
    /\ (UTIF_decodeImages (Environment := env_riff) tiff_pixel [] = Throw e
        \/ UTIF_toRGBA8 (Environment := env_riff) None = Throw e
        \/ e = TypeError_undefined).
Proof.
  apply (parseBitmap_tiff_without_directory (Env := env_riff) throws_on_error
           tiff_pixel JSUndefined callback fresh [] "image/tiff");
    reflexivity.
Defined.

Lemma getBuffer_only_bmp_mutates_witness :
  self (snd (getBuffer (Env := env) (JSString "image/png") callback
                       (mkWorld red_pixel [])))
  = red_pixel.
Proof.
  apply (getBuffer_only_bmp_mutates (Env := env) (JSString "image/png")
           callback (mkWorld red_pixel [])).
  intros s Hs. vm_compute in Hs. injection Hs as <-.
  split; vm_compute; discriminate.
Defined.

Lemma getBuffer_without_callback_witness :
  getBuffer (Env := env) (JSString "image/bmp") JSUndefined
            (mkWorld red_pixel [])
  = (Throw (JSError "Error" "cb must be a function"), mkWorld red_pixel []).
Proof.
  apply (getBuffer_without_callback (Env := env) (JSString "image/bmp")
           JSUndefined (mkWorld red_pixel [])).
  reflexivity.
Defined.

Lemma getBuffer_unset_bitmap_throws_witness :
  getBuffer (Env := env) (JSString "image/jpeg") callback (mkWorld fresh [])
  = (Throw TypeError_undefined, mkWorld fresh []).
Proof.
  apply (getBuffer_unset_bitmap_throws (Env := env)).
  - reflexivity.
  - right. left. reflexivity.
  - reflexivity.
Defined.

Lemma parseBitmap_exif_only_from_jpeg_witness :
  _exif (self (snd (parseBitmap (Env := env) png_pixel JSUndefined callback
                                (mkWorld tagged []))))
  = _exif tagged.
Proof.
  apply (parseBitmap_exif_only_from_jpeg (Env := env)).
  intros mime_ Hmime Hjpeg. vm_compute in Hmime. injection Hmime as <-.
  vm_compute in Hjpeg. discriminate Hjpeg.
Defined.

Lemma parseBitmap_decode_success_witness :
  parseBitmap (Env := env) gif_pixel JSUndefined callback (mkWorld fresh [])
  = (Normal ReturnedThis,
     mkWorld (set_bitmap (Some (mkBitmap [x0a; x0b; x0c; x0d]
                                         (JSNumber 1) (JSNumber 1)))
                         (recorded "image/gif" fresh))
       ([] ++ [success_event
                 (set_bitmap (Some (mkBitmap [x0a; x0b; x0c; x0d]
                                             (JSNumber 1) (JSNumber 1)))
                             (recorded "image/gif" fresh))])).
Proof.
  apply (parseBitmap_decode_success (Env := env)).
  - reflexivity.
  - right. split; reflexivity.
  - reflexivity.
Defined.

Lemma parseBitmap_bmp_success_witness :
  parseBitmap (Env := env) bmp_pixel JSUndefined callback (mkWorld fresh [])
  = (Normal ReturnedThis,
     mkWorld (set_bitmap (Some (mkBitmap [xff; x00; x00; x80]
                                         (JSNumber 1) (JSNumber 1)))
                         (recorded "image/bmp" fresh))
       ([] ++ [success_event
                 (set_bitmap (Some (mkBitmap [xff; x00; x00; x80]
                                             (JSNumber 1) (JSNumber 1)))
                             (recorded "image/bmp" fresh))])).
Proof.
  apply (parseBitmap_bmp_success (Env := env) bmp_pixel JSUndefined callback
           fresh [] "image/bmp" (pixels_of [x80; x00; x00; xff])).
  - reflexivity.
  - left. reflexivity.
  - reflexivity.
  - reflexivity.
Defined.

Lemma getBitmapFromGIF_first_frame_witness :
  exists gifObj,
    GIF_GifReader (Environment := env) gif_pixel = Normal gifObj
    /\ 0 <= gif_width gifObj * gif_height gifObj * 4
       <= kMaxLength (Environment := env)
    /\ decodeAndBlitFrameRGBA (Environment := env) gifObj 0
         (repeat x00 (Z.to_nat (gif_width gifObj * gif_height gifObj * 4)))
       = Normal [x0a; x0b; x0c; x0d]
    /\ JSNumber 1 = JSNumber (gif_width gifObj)
    /\ JSNumber 1 = JSNumber (gif_height gifObj).
Proof.
  apply (getBitmapFromGIF_first_frame (Env := env) gif_pixel
           (mkBitmap [x0a; x0b; x0c; x0d] (JSNumber 1) (JSNumber 1))).
  reflexivity.
Defined.

Lemma exifRotate_ignores_non_numbers_witness :
  exifRotate (Env := env) (mkWorld (with_orientation (JSString "6") red_pixel) [])
  = (Normal tt, mkWorld (with_orientation (JSString "6") red_pixel) []).
Proof.
  apply (exifRotate_ignores_non_numbers (Env := env)).
  intros z. discriminate.
Defined.

Lemma decode_gif_then_encode_auto_witness :
  (parseBitmap (Env := env) gif_pixel JSUndefined callback ;;
   getBuffer (Env := env) (JSNumber constants.AUTO) callback)
    (mkWorld fresh [])
  = (Normal ReturnedThis,
     mkWorld (set_bitmap (Some (mkBitmap [x0a; x0b; x0c; x0d]
                                         (JSNumber 1) (JSNumber 1)))
                         (recorded "image/gif" fresh))
       ([] ++ [success_event
                 (set_bitmap (Some (mkBitmap [x0a; x0b; x0c; x0d]
                                             (JSNumber 1) (JSNumber 1)))
                             (recorded "image/gif" fresh));
               mkEvent
                 (Some (set_bitmap (Some (mkBitmap [x0a; x0b; x0c; x0d]
                                                   (JSNumber 1) (JSNumber 1)))
                                   (recorded "image/gif" fresh)))
                 (JSString "Unsupported MIME type: image/gif") NoValue])).
Proof.
  apply (decode_gif_then_encode_auto (Env := env) gif_pixel JSUndefined
           callback callback fresh [] "image/gif"
           (mkBitmap [x0a; x0b; x0c; x0d] (JSNumber 1) (JSNumber 1)));
    reflexivity.
Defined.

Lemma decode_png_then_encode_auto_witness :
  (parseBitmap (Env := env) png_pixel JSUndefined callback ;;
   getBuffer (Env := env) (JSNumber constants.AUTO) callback)
    (mkWorld fresh [])
  = (Normal ReturnedThis,
     mkWorld red_pixel
       ([] ++ [success_event red_pixel;
               mkEvent (Some red_pixel) JSNull (BufferValue png_pixel)])).
Proof.
  apply (decode_png_then_encode_auto (Env := env) png_pixel JSUndefined
           callback callback fresh [] "image/png"
           (mkBitmap [xff; x00; x00; x80] (JSNumber 1) (JSNumber 1))
           png_pixel);
    reflexivity.
Defined.

Lemma decode_bmp_then_encode_bmp_witness :
  self (snd ((parseBitmap (Env := env) bmp_pixel JSUndefined callback ;;
              getBuffer (Env := env) (JSString "image/bmp") callback)
               (mkWorld fresh [])))
  = set_bitmap (Some (mkBitmap [x80; x00; x00; xff] (JSNumber 1) (JSNumber 1)))
               (recorded "image/bmp" fresh)
  /\ hd_error (skipn (List.length (@nil cb_event))
                 (log (snd ((parseBitmap (Env := env) bmp_pixel JSUndefined
                                         callback ;;
                             getBuffer (Env := env) (JSString "image/bmp")
                                       callback)
                              (mkWorld fresh [])))))
     = Some (success_event
               (set_bitmap (Some (mkBitmap [xff; x00; x00; x80]
                                           (JSNumber 1) (JSNumber 1)))
                           (recorded "image/bmp" fresh))).
Proof.
  apply (decode_bmp_then_encode_bmp (Env := env) bmp_pixel JSUndefined
           callback callback fresh [] "image/bmp" "image/bmp"
           (mkBitmap [x80; x00; x00; xff] (JSNumber 1) (JSNumber 1))
           (mkBitmap [xff; x00; x00; x80] (JSNumber 1) (JSNumber 1)));
    reflexivity.
Defined.

End MoreRuns.
